(** * Case-opening economy engine: identity verification, weighted draw, ledger

    A shallow embedding of the service layer of [main.py]
    ([AuthService], [CaseService], [UserService]) together with the
    library routines it calls ([hashlib.sha256], [hmac.new],
    [random.choices], binary64 arithmetic), and the properties the design
    document states about them. *)

From Stdlib Require Import Strings.Ascii Strings.String Strings.Byte.
From Stdlib Require Import ZArith List Bool Lia QArith Qround Permutation.
From Stdlib Require Import Floats.SpecFloat.
Import ListNotations.

Local Open Scope string_scope.
Local Open Scope Z_scope.

(* ================================================================== *)
(** * Part I: definitions *)
(* ================================================================== *)

(** ** Outcome of a Python call

    A call either returns a value or raises; a function that may return
    [None] returns an [option]. *)

Inductive exn : Type :=
| ValueError
| AttributeError
| OverflowError
| IndexError.

Inductive outcome (A : Type) : Type :=
| Return (a : A)
| Raise (e : exn).

Arguments Return {A} a.
Arguments Raise {A} e.

(** ** Bytes and 32-bit words *)

Definition Z_of_byte (b : byte) : Z := Z.of_N (Byte.to_N b).

Definition byte_of_Z (z : Z) : byte :=
  match Byte.of_N (Z.to_N (z mod 256)) with
  | Some b => b
  | None => x00
  end.

(** [str.encode()]: the payload is a string of 8-bit characters. *)
Definition encode (s : string) : list byte := list_byte_of_string s.

Module Sha256.

Definition mask32 : Z := 0xffffffff.

Definition add32 (x y : Z) : Z := Z.land (x + y) mask32.

Definition rotr (n x : Z) : Z :=
  Z.lor (Z.shiftr x n) (Z.land (Z.shiftl x (32 - n)) mask32).

Definition shr (n x : Z) : Z := Z.shiftr x n.

Definition not32 (x : Z) : Z := Z.lxor x mask32.

Definition Ch (x y z : Z) : Z :=
  Z.lxor (Z.land x y) (Z.land (not32 x) z).

Definition Maj (x y z : Z) : Z :=
  Z.lxor (Z.lxor (Z.land x y) (Z.land x z)) (Z.land y z).

Definition Sigma0 (x : Z) : Z :=
  Z.lxor (Z.lxor (rotr 2 x) (rotr 13 x)) (rotr 22 x).

Definition Sigma1 (x : Z) : Z :=
  Z.lxor (Z.lxor (rotr 6 x) (rotr 11 x)) (rotr 25 x).

Definition sigma0 (x : Z) : Z :=
  Z.lxor (Z.lxor (rotr 7 x) (rotr 18 x)) (shr 3 x).

Definition sigma1 (x : Z) : Z :=
  Z.lxor (Z.lxor (rotr 17 x) (rotr 19 x)) (shr 10 x).

(** The first 64 primes. *)
Definition primes : list Z :=
  [2; 3; 5; 7; 11; 13; 17; 19; 23; 29; 31; 37; 41; 43; 47; 53;
   59; 61; 67; 71; 73; 79; 83; 89; 97; 101; 103; 107; 109; 113; 127; 131;
   137; 139; 149; 151; 157; 163; 167; 173; 179; 181; 191; 193; 197; 199;
   211; 223; 227; 229; 233; 239; 241; 251; 257; 263; 269; 271; 277; 281;
   283; 293; 307; 311].

(** The largest [r] below [2 ^ n] with [r ^ 3 <= x], one bit at a time. *)
Fixpoint cube_root (n : nat) (x acc : Z) : Z :=
  match n with
  | O => acc
  | S n' =>
      let c := Z.lor acc (Z.shiftl 1 (Z.of_nat n')) in
      if c * c * c <=? x then cube_root n' x c else cube_root n' x acc
  end.

(** Round constants: the first 32 bits of the fractional parts of the
    cube roots of the primes. *)
Definition K : list Z :=
  Eval vm_compute in
    map (fun p => Z.land (cube_root 36 (Z.shiftl p 96) 0) mask32) primes.

(** The eight working variables [a .. h], also the chaining value. *)
Record state : Type := mkState {
  sa : Z; sb : Z; sc : Z; sd : Z; se : Z; sf : Z; sg : Z; sh : Z
}.

(** Initial chaining value: the first 32 bits of the fractional parts of
    the square roots of the first eight primes. *)
Definition frac_sqrt (p : Z) : Z := Z.land (Z.sqrt (Z.shiftl p 64)) mask32.

Definition H0 : state :=
  Eval vm_compute in
    mkState (frac_sqrt 2) (frac_sqrt 3) (frac_sqrt 5) (frac_sqrt 7)
            (frac_sqrt 11) (frac_sqrt 13) (frac_sqrt 17) (frac_sqrt 19).

(** Padding: a [0x80] byte, zeros up to 56 modulo 64, then the bit
    length as a 64-bit big-endian integer. *)
Definition be_bytes (n : nat) (x : Z) : list byte :=
  map (fun i => byte_of_Z (Z.shiftr x (8 * Z.of_nat i))) (rev (seq 0 n)).

Definition pad (msg : list byte) : list byte :=
  let len := Z.of_nat (length msg) in
  let zeros := Z.to_nat ((55 - len) mod 64) in
  (msg ++ x80 :: repeat x00 zeros ++ be_bytes 8 (8 * len))%list.

Definition be_word (b0 b1 b2 b3 : byte) : Z :=
  Z.lor (Z.shiftl (Z_of_byte b0) 24)
    (Z.lor (Z.shiftl (Z_of_byte b1) 16)
       (Z.lor (Z.shiftl (Z_of_byte b2) 8) (Z_of_byte b3))).

Fixpoint words (bs : list byte) : list Z :=
  match bs with
  | b0 :: b1 :: b2 :: b3 :: rest => be_word b0 b1 b2 b3 :: words rest
  | _ => []
  end.

Fixpoint blocks (fuel : nat) (ws : list Z) : list (list Z) :=
  match fuel, ws with
  | S fuel', _ :: _ => firstn 16 ws :: blocks fuel' (skipn 16 ws)
  | _, _ => []
  end.

(** Message schedule, kept newest-first: the head is [W(t-1)]. *)
Definition next_w (rev_w : list Z) : Z :=
  add32 (add32 (sigma1 (nth 1 rev_w 0)) (nth 6 rev_w 0))
        (add32 (sigma0 (nth 14 rev_w 0)) (nth 15 rev_w 0)).

Fixpoint extend (n : nat) (rev_w : list Z) : list Z :=
  match n with
  | O => rev_w
  | S n' => extend n' (next_w rev_w :: rev_w)
  end.

Definition schedule (block : list Z) : list Z :=
  rev (extend 48 (rev block)).

Definition round (s : state) (kw : Z * Z) : state :=
  let '(k, w) := kw in
  let t1 := add32 (add32 (add32 (sh s) (Sigma1 (se s)))
                         (add32 (Ch (se s) (sf s) (sg s)) k)) w in
  let t2 := add32 (Sigma0 (sa s)) (Maj (sa s) (sb s) (sc s)) in
  mkState (add32 t1 t2) (sa s) (sb s) (sc s)
          (add32 (sd s) t1) (se s) (sf s) (sg s).

Definition compress (h : state) (block : list Z) : state :=
  let s := fold_left round (combine K (schedule block)) h in
  mkState (add32 (sa h) (sa s)) (add32 (sb h) (sb s))
          (add32 (sc h) (sc s)) (add32 (sd h) (sd s))
          (add32 (se h) (se s)) (add32 (sf h) (sf s))
          (add32 (sg h) (sg s)) (add32 (sh h) (sh s)).

Definition state_bytes (s : state) : list byte :=
  flat_map (be_bytes 4)
    [sa s; sb s; sc s; sd s; se s; sf s; sg s; sh s].

(** [hashlib.sha256(msg).digest()] *)
Definition digest (msg : list byte) : list byte :=
  let ws := words (pad msg) in
  state_bytes (fold_left compress (blocks (length ws) ws) H0).

End Sha256.

Module Hmac.

Definition block_size : nat := 64.

Definition xor_byte (c : Z) (b : byte) : byte :=
  byte_of_Z (Z.lxor (Z_of_byte b) c).

(** Keys longer than a block are hashed first; shorter ones are
    zero-padded to the block size. *)
Definition block_key (key : list byte) : list byte :=
  let k := if (block_size <? length key)%nat then Sha256.digest key else key in
  (k ++ repeat x00 (block_size - length k))%list.

(** [hmac.new(key, msg, hashlib.sha256).digest()] *)
Definition digest (key msg : list byte) : list byte :=
  let k := block_key key in
  Sha256.digest (map (xor_byte 0x5c) k
                 ++ Sha256.digest (map (xor_byte 0x36) k ++ msg))%list.

End Hmac.

(** [.hexdigest()]: two lowercase hexadecimal digits per byte. *)
Definition hex_digits : list ascii := list_ascii_of_string "0123456789abcdef".

Definition hex_digit (n : Z) : ascii := nth (Z.to_nat n) hex_digits "0"%char.

Fixpoint hexdigest (bs : list byte) : string :=
  match bs with
  | [] => EmptyString
  | b :: rest =>
      String (hex_digit (Z_of_byte b / 16))
        (String (hex_digit (Z_of_byte b mod 16)) (hexdigest rest))
  end.

(** ** Exceptions raised inside a function body *)

Definition bind {A B : Type} (m : outcome A) (k : A -> outcome B) : outcome B :=
  match m with
  | Return a => k a
  | Raise e => Raise e
  end.

Notation "x <- m ;; k" := (bind m (fun x => k))
  (at level 61, m at next level, right associativity).

(** ** AuthService *)

Definition LF : ascii := "010"%char.

(** [s.split(sep)] for a one-character separator: never empty, the
    empty string gives one empty segment. *)
Fixpoint split (sep : ascii) (s : string) : list string :=
  match s with
  | EmptyString => [EmptyString]
  | String c s' =>
      if Ascii.eqb c sep then EmptyString :: split sep s'
      else match split sep s' with
           | [] => [String c EmptyString]
           | seg :: segs => String c seg :: segs
           end
  end.

(** [key, value = pair.split('=')]: unpacking needs exactly two parts. *)
Definition unpack_pair (seg : string) : outcome (string * string) :=
  match split "=" seg with
  | [key; value] => Return (key, value)
  | _ => Raise ValueError
  end.

(** One iteration of the parsing loop over [(data_pairs, hash_value)]. *)
Definition parse_step (st : list (string * string) * option string)
    (seg : string) : outcome (list (string * string) * option string) :=
  kv <- unpack_pair seg ;;
  let '(key, value) := kv in
  if String.eqb key "hash" then Return (fst st, Some value)
  else Return ((fst st ++ [(key, value)])%list, snd st).

Fixpoint parse_loop (segs : list string)
    (st : list (string * string) * option string)
    : outcome (list (string * string) * option string) :=
  match segs with
  | [] => Return st
  | seg :: rest => st' <- parse_step st seg ;; parse_loop rest st'
  end.

(** [data_pairs.sort(key=lambda x: x[0])]: a stable sort on the key. *)
Fixpoint insert_by_key (p : string * string) (l : list (string * string))
    : list (string * string) :=
  match l with
  | [] => [p]
  | q :: l' =>
      if String.ltb (fst q) (fst p) then q :: insert_by_key p l'
      else p :: q :: l'
  end.

Definition sort_by_key (l : list (string * string)) : list (string * string) :=
  fold_right insert_by_key [] l.

Fixpoint join (sep : string) (l : list string) : string :=
  match l with
  | [] => EmptyString
  | [s] => s
  | s :: rest => s ++ sep ++ join sep rest
  end.

Definition format_pair (p : string * string) : string :=
  fst p ++ "=" ++ snd p.

Definition data_check_string (data_pairs : list (string * string)) : string :=
  join (String LF EmptyString) (map format_pair (sort_by_key data_pairs)).

Definition computed_hash (BOT_TOKEN : string) (check : string) : string :=
  let secret_key := Sha256.digest (encode BOT_TOKEN) in
  hexdigest (Hmac.digest secret_key (encode check)).

Arguments computed_hash : simpl never.

(** The body of the [try] block. *)
Definition verify_body (BOT_TOKEN init_data : string) : outcome bool :=
  st <- parse_loop (split "&" init_data) ([], None) ;;
  let '(data_pairs, hash_value) := st in
  match hash_value with
  | None => Return false
  | Some EmptyString => Return false
  | Some hash_value =>
      Return (String.eqb (computed_hash BOT_TOKEN (data_check_string data_pairs))
                         hash_value)
  end.

(** [except Exception: return False] *)
Definition verify_telegram_init_data (BOT_TOKEN init_data : string) : bool :=
  match verify_body BOT_TOKEN init_data with
  | Return b => b
  | Raise _ => false
  end.

(** *** The parsing step as the design document words it

    "Split each segment on the first [=] into (key, value)." *)
Fixpoint spec_split_first (seg : string) : option (string * string) :=
  match seg with
  | EmptyString => None
  | String c rest =>
      if Ascii.eqb c "=" then Some (EmptyString, rest)
      else match spec_split_first rest with
           | Some (k, v) => Some (String c k, v)
           | None => None
           end
  end.

(** *** Building and altering payloads *)

Definition payload_of (entries : list (string * string)) : string :=
  join "&" (map format_pair entries).

(** The entries of a signed payload: the fields with the [hash] pair put
    at position [n]. *)
Definition with_hash (n : nat) (h : string) (fields : list (string * string))
    : list (string * string) :=
  (firstn n fields ++ ("hash", h) :: skipn n fields)%list.

(** Replace the character at index [i]. *)
Fixpoint set_char (i : nat) (c : ascii) (s : string) : string :=
  match s, i with
  | EmptyString, _ => EmptyString
  | String _ s', O => String c s'
  | String a s', S i' => String a (set_char i' c s')
  end.

Fixpoint contains (c : ascii) (s : string) : bool :=
  match s with
  | EmptyString => false
  | String a s' => Ascii.eqb a c || contains c s'
  end.

(** A key or value that can sit in a payload as it is. *)
Definition plain (s : string) : bool :=
  negb (contains "&" s) && negb (contains "=" s).

Definition plain_field (p : string * string) : bool :=
  plain (fst p) && plain (snd p) && negb (String.eqb (fst p) "hash").

(** ** CaseService.open_case

    The [chance] column is a float that is only summed and compared
    here; it is modelled as an exact rational. *)

Definition Qltb (x y : Q) : bool :=
  match (x ?= y)%Q with
  | Lt => true
  | _ => false
  end.

Definition Qleb (x y : Q) : bool := negb (Qltb y x).

(** The dictionaries built by [get_case_nfts]. *)
Record CaseItem : Type := mkCaseItem {
  item_id : Z;
  item_name : string;
  item_description : option string;
  item_rarity : string;
  item_price : Z;
  item_image_url : option string;
  chance : Q
}.

Module Random.

(** [itertools.accumulate(weights)] *)
Fixpoint accumulate_from (acc : Q) (ws : list Q) : list Q :=
  match ws with
  | [] => []
  | w :: rest => let acc' := (acc + w)%Q in acc' :: accumulate_from acc' rest
  end.

Definition accumulate (ws : list Q) : list Q :=
  match ws with
  | [] => []
  | w :: rest => w :: accumulate_from w rest
  end.

(** [bisect.bisect_right(a, x, lo, hi)]:
    [while lo < hi: mid = (lo + hi) // 2;
       if x < a[mid]: hi = mid  else: lo = mid + 1]. *)
Fixpoint bisect_loop (fuel : nat) (a : list Q) (x : Q) (lo hi : nat) : nat :=
  match fuel with
  | O => lo
  | S fuel' =>
      if (lo <? hi)%nat then
        let mid := ((lo + hi) / 2)%nat in
        if Qltb x (nth mid a 0%Q) then bisect_loop fuel' a x lo mid
        else bisect_loop fuel' a x (mid + 1)%nat hi
      else lo
  end.

Definition bisect (a : list Q) (x : Q) (lo hi : nat) : nat :=
  bisect_loop (hi - lo) a x lo hi.

(** [random.choices(population, weights=weights, k=1)[0]], where [u]
    is the number in [0, 1) that [random()] returns. *)
Definition choices {A : Type} (u : Q) (population : list A) (weights : list Q)
    : outcome A :=
  let n := length population in
  let cum_weights := accumulate weights in
  if negb (length cum_weights =? n)%nat then Raise ValueError
  else
    let total := (last cum_weights 0 + 0)%Q in
    if Qleb total 0 then Raise ValueError
    else
      let hi := (n - 1)%nat in
      match nth_error population (bisect cum_weights (u * total)%Q 0 hi) with
      | Some x => Return x
      | None => Raise IndexError
      end.

End Random.

(** The loop filling [items] and [weights]. *)
Definition collect (case_nfts : list CaseItem) : list CaseItem * list Q :=
  fold_left (fun acc item => ((fst acc ++ [item])%list, (snd acc ++ [chance item])%list))
            case_nfts ([], []).

Definition open_case (u : Q) (case_nfts : list CaseItem) : outcome (option CaseItem) :=
  match case_nfts with
  | [] => Return None
  | _ =>
      let '(items, weights) := collect case_nfts in
      selected <- Random.choices u items weights ;;
      Return (Some selected)
  end.

(** *** The selection as the design document words it

    "Walk candidates accumulating weight until the running sum exceeds
    the draw point; return that candidate." *)
Fixpoint spec_walk {A : Type} (running r : Q) (candidates : list (A * Q)) : option A :=
  match candidates with
  | [] => None
  | (x, w) :: rest =>
      let running' := (running + w)%Q in
      if Qltb r running' then Some x else spec_walk running' r rest
  end.

Definition total_weight (case_nfts : list CaseItem) : Q :=
  fold_right (fun item acc => (chance item + acc)%Q) 0%Q case_nfts.

Definition candidates_of (case_nfts : list CaseItem) : list (CaseItem * Q) :=
  map (fun item => (item, chance item)) case_nfts.

(** ** Binary64 arithmetic *)

Definition prec : Z := 53.
Definition emax : Z := 1024.

(** [float(n)]: round to nearest, ties to even; too large an integer
    raises. *)
Definition float_of_int (n : Z) : outcome spec_float :=
  match binary_normalize prec emax n 0 false with
  | S754_infinity _ => Raise OverflowError
  | f => Return f
  end.

(** [int(f)]: truncation toward zero. *)
Definition int_of_float (f : spec_float) : outcome Z :=
  match f with
  | S754_zero _ => Return 0
  | S754_finite s m e =>
      let a := Z.shiftl (Zpos m) e in
      Return (if s then - a else a)
  | S754_infinity _ => Raise OverflowError
  | S754_nan => Raise ValueError
  end.

(** [SELL_PERCENT = 0.7]: the double nearest to 7/10. *)
Definition SELL_PERCENT : spec_float :=
  SFdiv prec emax (binary_normalize prec emax 7 0 false)
                  (binary_normalize prec emax 10 0 false).

(** [int(price * SELL_PERCENT)] *)
Definition sell_price_of (price : Z) : outcome Z :=
  p <- float_of_int price ;;
  int_of_float (SFmul prec emax p SELL_PERCENT).

(** ** The store

    One list of rows per table, in insertion order; the timestamp
    columns play no part and are left out. *)

Module User.
Record t : Type := mk {
  id : Z;
  telegram_id : Z;
  username : option string;
  first_name : option string;
  last_name : option string;
  stars_balance : Z;
  total_spent_stars : Z;
  total_cases_opened : Z
}.
End User.

Module NFT.
Record t : Type := mk {
  id : Z;
  name : string;
  description : option string;
  rarity : string;
  price : Z;
  image_url : option string;
  is_active : bool
}.
End NFT.

Module Case.
Record t : Type := mk {
  id : Z;
  name : string;
  description : option string;
  price_stars : Z;
  image_url : option string;
  is_active : bool
}.
End Case.

Module CaseNFT.
Record t : Type := mk {
  id : Z;
  case_id : Z;
  nft_id : Z;
  chance : Q;
  is_active : bool
}.
End CaseNFT.

Module UserNFT.
Record t : Type := mk {
  id : Z;
  user_id : Z;
  nft_id : Z;
  is_sold : bool;
  sold_price : option Z;
  opened_from_case_id : option Z
}.
End UserNFT.

Module OpeningHistory.
Record t : Type := mk {
  id : Z;
  user_id : Z;
  case_id : Z;
  nft_id : Z;
  stars_spent : Z
}.
End OpeningHistory.

Record Db : Type := mkDb {
  users : list User.t;
  nfts : list NFT.t;
  cases : list Case.t;
  case_nfts : list CaseNFT.t;
  user_nfts : list UserNFT.t;
  opening_history : list OpeningHistory.t
}.

(** The key an autoincrement primary key column gives a new row. *)
Definition fresh_id (ids : list Z) : Z := 1 + fold_right Z.max 0 ids.

(** [query.filter(...).first()] *)
Definition first {A : Type} (f : A -> bool) (rows : list A) : option A := find f rows.

Definition set_users (db : Db) (rows : list User.t) : Db :=
  mkDb rows (nfts db) (cases db) (case_nfts db) (user_nfts db) (opening_history db).

Definition set_user_nfts (db : Db) (rows : list UserNFT.t) : Db :=
  mkDb (users db) (nfts db) (cases db) (case_nfts db) rows (opening_history db).

Definition set_opening_history (db : Db) (rows : list OpeningHistory.t) : Db :=
  mkDb (users db) (nfts db) (cases db) (case_nfts db) (user_nfts db) rows.

(** ** CaseService.get_case_nfts *)

Definition get_case_nfts (db : Db) (case_id : Z) : list CaseItem :=
  flat_map (fun case_nft =>
    flat_map (fun nft =>
      if (CaseNFT.nft_id case_nft =? NFT.id nft)
         && (CaseNFT.case_id case_nft =? case_id)
         && CaseNFT.is_active case_nft && NFT.is_active nft
      then [mkCaseItem (NFT.id nft) (NFT.name nft) (NFT.description nft)
                       (NFT.rarity nft) (NFT.price nft) (NFT.image_url nft)
                       (CaseNFT.chance case_nft)]
      else [])
      (nfts db))
    (case_nfts db).

(** ** UserService *)

Definition get_or_create_user (db : Db) (telegram_id : Z)
    (username first_name last_name : option string) : Db * User.t :=
  match first (fun u => User.telegram_id u =? telegram_id) (users db) with
  | Some user => (db, user)
  | None =>
      let user := User.mk (fresh_id (map User.id (users db))) telegram_id
                          username first_name last_name 1000 0 0 in
      (set_users db (users db ++ [user])%list, user)
  end.

Definition add_nft_to_inventory (db : Db) (user_id nft_id case_id : Z)
    : Db * UserNFT.t :=
  let user_nft := UserNFT.mk (fresh_id (map UserNFT.id (user_nfts db)))
                             user_id nft_id false None (Some case_id) in
  (set_user_nfts db (user_nfts db ++ [user_nft])%list, user_nft).

Definition get_user_nfts (db : Db) (user_id : Z) : list (UserNFT.t * NFT.t) :=
  flat_map (fun user_nft =>
    flat_map (fun nft =>
      if (UserNFT.nft_id user_nft =? NFT.id nft)
         && (UserNFT.user_id user_nft =? user_id)
         && negb (UserNFT.is_sold user_nft)
      then [(user_nft, nft)] else [])
      (nfts db))
    (user_nfts db).

(** The UPDATE a changed row is flushed as: every row with that
    primary key takes the new column values. *)
Definition mark_sold (id sell_price : Z) (rows : list UserNFT.t) : list UserNFT.t :=
  map (fun r =>
         if UserNFT.id r =? id
         then UserNFT.mk (UserNFT.id r) (UserNFT.user_id r) (UserNFT.nft_id r)
                         true (Some sell_price) (UserNFT.opened_from_case_id r)
         else r)
      rows.

Definition set_balance (id balance : Z) (rows : list User.t) : list User.t :=
  map (fun r =>
         if User.id r =? id
         then User.mk (User.id r) (User.telegram_id r) (User.username r)
                      (User.first_name r) (User.last_name r) balance
                      (User.total_spent_stars r) (User.total_cases_opened r)
         else r)
      rows.

(** A raised exception leaves before [db.commit()]: the store it was
    raised on is the store that remains. *)
Definition sell_nft (db : Db) (user_nft_id user_id : Z) : outcome (Db * option Z) :=
  match first (fun r => (UserNFT.id r =? user_nft_id)
                        && (UserNFT.user_id r =? user_id)
                        && negb (UserNFT.is_sold r))
              (user_nfts db) with
  | None => Return (db, None)
  | Some user_nft =>
      match first (fun n => NFT.id n =? UserNFT.nft_id user_nft) (nfts db) with
      | None => Raise AttributeError
      | Some nft =>
          sell_price <- sell_price_of (NFT.price nft) ;;
          let rows := mark_sold (UserNFT.id user_nft) sell_price (user_nfts db) in
          match first (fun u => User.id u =? user_id) (users db) with
          | None => Raise AttributeError
          | Some user =>
              let balance := User.stars_balance user + sell_price in
              Return (set_users (set_user_nfts db rows)
                                (set_balance (User.id user) balance (users db)),
                      Some sell_price)
          end
      end
  end.

(** ** EconomyLedger.openCase *)

Inductive ledger_error : Type :=
| UserNotFound
| CaseNotFound
| CaseInactive
| EmptyPool
| InsufficientFunds.

Definition charge (user : User.t) (price : Z) (rows : list User.t) : list User.t :=
  map (fun r =>
         if User.id r =? User.id user
         then User.mk (User.id r) (User.telegram_id r) (User.username r)
                      (User.first_name r) (User.last_name r)
                      (User.stars_balance user - price)
                      (User.total_spent_stars user + price)
                      (User.total_cases_opened user + 1)
         else r)
      rows.

(** Modelled from the spec: [openCase] of the ledger (design section 4.4,
    steps 1 to 7).  The request handler that opens a case is not in the
    source file; the catalog is read with [get_case_nfts] and the draw
    is [open_case], which are. *)
Definition openCase (db : Db) (u : Q) (userId caseId : Z)
    : Db * (ledger_error + CaseItem * Z) :=
  match first (fun x => User.id x =? userId) (users db) with
  | None => (db, inl UserNotFound)
  | Some user =>
      match first (fun c => Case.id c =? caseId) (cases db) with
      | None => (db, inl CaseNotFound)
      | Some case =>
          if negb (Case.is_active case) then (db, inl CaseInactive)
          else
            match get_case_nfts db caseId with
            | [] => (db, inl EmptyPool)
            | contents =>
                if User.stars_balance user <? Case.price_stars case
                then (db, inl InsufficientFunds)
                else
                  match open_case u contents with
                  | Return (Some item) =>
                      let price := Case.price_stars case in
                      let entry := UserNFT.mk (fresh_id (map UserNFT.id (user_nfts db)))
                                     userId (item_id item) false None (Some caseId) in
                      let record := OpeningHistory.mk
                                     (fresh_id (map OpeningHistory.id (opening_history db)))
                                     userId caseId (item_id item) price in
                      (mkDb (charge user price (users db)) (nfts db) (cases db)
                            (case_nfts db) (user_nfts db ++ [entry])%list
                            (opening_history db ++ [record])%list,
                       inr (item, User.stars_balance user - price))
                  | _ => (db, inl EmptyPool)
                  end
            end
      end
  end.

(** ** Runs of the store *)

Inductive step : Db -> Db -> Prop :=
| step_get_or_create_user db telegram_id username first_name last_name :
    step db (fst (get_or_create_user db telegram_id username first_name last_name))
| step_add_nft_to_inventory db user_id nft_id case_id :
    step db (fst (add_nft_to_inventory db user_id nft_id case_id))
| step_sell_nft db user_nft_id user_id db' r :
    sell_nft db user_nft_id user_id = Return (db', r) -> step db db'
| step_openCase db u userId caseId :
    step db (fst (openCase db u userId caseId)).

Inductive reachable (db : Db) : Db -> Prop :=
| reach_refl : reachable db db
| reach_step db1 db2 : reachable db db1 -> step db1 db2 -> reachable db db2.

Definition balances_nonneg (db : Db) : Prop :=
  Forall (fun user => 0 <= User.stars_balance user) (users db).

Definition prices_nonneg (db : Db) : Prop :=
  Forall (fun nft => 0 <= NFT.price nft) (nfts db) /\
  Forall (fun case => 0 <= Case.price_stars case) (cases db).

Definition nonneg_float (f : spec_float) : Prop :=
  match f with
  | S754_zero s | S754_infinity s | S754_finite s _ _ => s = false
  | S754_nan => True
  end.

Definition sold_db (db : Db) (user_nft_id user_id balance sell_price : Z) : Db :=
  set_users (set_user_nfts db (mark_sold user_nft_id sell_price (user_nfts db)))
            (set_balance user_id balance (users db)).

Definition opened_db (db : Db) (user : User.t) (case : Case.t)
    (userId caseId : Z) (item : CaseItem) : Db :=
  let price := Case.price_stars case in
  mkDb (charge user price (users db)) (nfts db) (cases db) (case_nfts db)
       (user_nfts db ++
        [UserNFT.mk (fresh_id (map UserNFT.id (user_nfts db)))
                    userId (item_id item) false None (Some caseId)])%list
       (opening_history db ++
        [OpeningHistory.mk (fresh_id (map OpeningHistory.id (opening_history db)))
                           userId caseId (item_id item) price])%list.

(** ** A small store to run the operations on *)

Definition demo_db : Db :=
  mkDb [User.mk 1 777 (Some "bob") (Some "Bob") None 100 0 0]
       [NFT.mk 10 "Rose" None "common" 100 None true;
        NFT.mk 11 "Bear" None "rare" 90 None true]
       [Case.mk 5 "Starter" None 150 None true]
       [CaseNFT.mk 1 5 10 1%Q true; CaseNFT.mk 2 5 11 (1 # 2)%Q true]
       [UserNFT.mk 1 1 10 false None (Some 5);
        UserNFT.mk 2 1 11 false None (Some 5)]
       [].

(** Three candidates with weights 1, 1 and 2. *)
Definition demo_pool : list CaseItem :=
  [mkCaseItem 10 "Rose" None "common" 100 None 1%Q;
   mkCaseItem 11 "Bear" None "rare" 90 None 1%Q;
   mkCaseItem 12 "Ring" None "epic" 500 None 2%Q].

(** A segment the loop takes as the [hash] pair. *)
Definition is_hash_segment (seg : string) : bool :=
  match unpack_pair seg with
  | Return (key, _) => String.eqb key "hash"
  | Raise _ => false
  end.

Definition no_hash_segment (segs : list string) : bool :=
  forallb (fun seg => negb (is_hash_segment seg)) segs.

(** The credential the examples are signed with. *)
Definition demo_token : string := "123456:TEST".

(** What the parsing loop makes of a list of well-formed entries. *)
Definition plain_entry (p : string * string) : bool :=
  plain (fst p) && plain (snd p).

Definition fields_of (entries : list (string * string)) : list (string * string) :=
  filter (fun p => negb (String.eqb (fst p) "hash")) entries.

Definition hash_of (entries : list (string * string)) (h0 : option string)
    : option string :=
  fold_left (fun h p => if String.eqb (fst p) "hash" then Some (snd p) else h)
            entries h0.

(** Two pairs with the same key and values of the same length. *)
Definition same_shape (p q : string * string) : Prop :=
  fst p = fst q /\ String.length (snd p) = String.length (snd q).

(** The hash value a payload with these fields is signed with. *)
Definition signature (BOT_TOKEN : string) (fields : list (string * string)) : string :=
  computed_hash BOT_TOKEN (data_check_string fields).

Arguments signature : simpl never.

Definition demo_fields : list (string * string) :=
  [("user", "bob"); ("auth_date", "1")].

Definition demo_entries : list (string * string) :=
  [("user", "bob");
   ("hash", "03be38ff18898a01e422ae1a42de4e546077264effe666f7f1fc81ed94b1306a");
   ("auth_date", "1")].

(** The same candidate with its chance multiplied by [k]. *)
Definition scale_chance (k : Q) (item : CaseItem) : CaseItem :=
  mkCaseItem (item_id item) (item_name item) (item_description item)
             (item_rarity item) (item_price item) (item_image_url item)
             (k * chance item)%Q.

(** Primary keys and telegram ids are pairwise different. *)
Definition keys_unique (db : Db) : Prop :=
  NoDup (map User.id (users db)) /\
  NoDup (map User.telegram_id (users db)) /\
  NoDup (map UserNFT.id (user_nfts db)).

(** The stars held by all users together. *)
Definition total_balance (db : Db) : Z :=
  fold_right Z.add 0 (map User.stars_balance (users db)).

(** The sum of a list of weights. *)
Definition sum_weights (ws : list Q) : Q := fold_right Qplus 0%Q ws.

(* ================================================================== *)
(** * Part II: properties *)
(* ================================================================== *)

(** ** Known-answer tests for the hash primitives *)

Example sha256_constants :
  nth 0 Sha256.K 0 = 0x428a2f98 /\ nth 63 Sha256.K 0 = 0xc67178f2 /\
  Sha256.sa Sha256.H0 = 0x6a09e667 /\ Sha256.sh Sha256.H0 = 0x5be0cd19.
Proof. repeat split; reflexivity. Qed.

Example sha256_empty :
  hexdigest (Sha256.digest (encode "")) =
  "e3b0c44298fc1c149afbf4c8996fb92427ae41e4649b934ca495991b7852b855".
Proof. vm_compute. reflexivity. Qed.

Example sha256_abc :
  hexdigest (Sha256.digest (encode "abc")) =
  "ba7816bf8f01cfea414140de5dae2223b00361a396177a9cb410ff61f20015ad".
Proof. vm_compute. reflexivity. Qed.

Example sha256_two_blocks :
  hexdigest (Sha256.digest
    (encode "abcdbcdecdefdefgefghfghighijhijkijkljklmklmnlmnomnopnopq")) =
  "248d6a61d20638b8e5c026930c3e6039a33ce45964ff2167f6ecedd419db06c1".
Proof. vm_compute. reflexivity. Qed.

Example hmac_rfc4231_case2 :
  hexdigest (Hmac.digest (encode "Jefe") (encode "what do ya want for nothing?")) =
  "5bdcc146bf60754e6a042426089575c75a003f089d2739839dec58b964ec3843".
Proof. vm_compute. reflexivity. Qed.

Example hmac_rfc4231_case6 :
  hexdigest (Hmac.digest (repeat xaa 131)
    (encode "Test Using Larger Than Block-Size Key - Hash Key First")) =
  "60e431591ee0b67f0d8a26aacbf5b77f8e0bc6213728c5140546040f0ee37f54".
Proof. vm_compute. reflexivity. Qed.

Example split_examples :
  split "&" "a=1&b=2" = ["a=1"; "b=2"] /\ split "&" "" = [""] /\
  split "=" "a=b=c" = ["a"; "b"; "c"] /\ split "&" "a&" = ["a"; ""].
Proof. repeat split; reflexivity. Qed.

Example sort_stable :
  sort_by_key [("b","1"); ("a","2"); ("b","0"); ("a","1")] =
  [("a","2"); ("a","1"); ("b","1"); ("b","0")].
Proof. reflexivity. Qed.

(** ** Binary64: the sign of a product and of a truncation *)

Lemma binary_round_aux_sign (s : bool) (m e : Z) (l : location) :
  match binary_round_aux prec emax s m e l with
  | S754_zero s' | S754_infinity s' | S754_finite s' _ _ => s' = s
  | S754_nan => True
  end.
Proof.
  unfold binary_round_aux.
  destruct (shr_fexp prec emax m e l) as [mrs' e'].
  destruct (shr_fexp prec emax _ e' loc_Exact) as [mrs'' e''].
  destruct (shr_m mrs''); auto.
  destruct (Z.leb e'' (emax - prec)); reflexivity.
Qed.


Lemma float_of_int_nonneg (n : Z) (f : spec_float) :
  0 <= n -> float_of_int n = Return f -> nonneg_float f.
Proof.
  intros Hn. unfold float_of_int, binary_normalize.
  destruct n as [|p|p]; [|  |lia].
  - intros H. inversion H. reflexivity.
  - unfold binary_round.
    destruct (shl_align p 0 _) as [mz ez].
    generalize (binary_round_aux_sign false (Zpos mz) ez loc_Exact).
    destruct (binary_round_aux prec emax false (Zpos mz) ez loc_Exact);
      intros Hs H; inversion H; subst; simpl; auto.
Qed.

Lemma SELL_PERCENT_bits : SELL_PERCENT = S754_finite false 6305039478318694 (-53).
Proof. vm_compute. reflexivity. Qed.

Lemma SFmul_SELL_PERCENT_nonneg (f : spec_float) :
  nonneg_float f -> nonneg_float (SFmul prec emax f SELL_PERCENT).
Proof.
  rewrite SELL_PERCENT_bits.
  destruct f as [s|s| |s m e]; simpl; intros H; subst; auto.
  apply (binary_round_aux_sign false).
Qed.

Lemma int_of_float_nonneg (f : spec_float) (z : Z) :
  nonneg_float f -> int_of_float f = Return z -> 0 <= z.
Proof.
  destruct f as [s|s| |s m e]; simpl; intros H E; inversion E; subst.
  - lia.
  - apply Z.shiftl_nonneg. lia.
Qed.

Lemma sell_price_of_nonneg (price s : Z) :
  0 <= price -> sell_price_of price = Return s -> 0 <= s.
Proof.
  intros Hp. unfold sell_price_of, bind.
  destruct (float_of_int price) as [f|e] eqn:Ef; [|discriminate].
  intros E. eapply int_of_float_nonneg; [|exact E].
  apply SFmul_SELL_PERCENT_nonneg. eapply float_of_int_nonneg; eauto.
Qed.

Example sell_price_of_100 : sell_price_of 100 = Return 70.
Proof. vm_compute. reflexivity. Qed.

(** ** Lookups *)

Lemma first_none {A : Type} (f : A -> bool) (rows : list A) :
  (forall r, In r rows -> f r = false) -> first f rows = None.
Proof.
  induction rows as [|a rows IH]; simpl; intros H; [reflexivity|].
  rewrite (H a) by auto. apply IH. intros r Hr. apply H. auto.
Qed.

Lemma first_some {A : Type} (f : A -> bool) (rows : list A) (r : A) :
  first f rows = Some r -> In r rows /\ f r = true.
Proof. apply find_some. Qed.

(** ** What [sell_nft] does *)


Lemma sell_nft_inv (db db' : Db) (x uid : Z) (r : option Z) :
  sell_nft db x uid = Return (db', r) ->
  (r = None /\ db' = db) \/
  exists user_nft nft user s,
    r = Some s /\
    In user_nft (user_nfts db) /\ UserNFT.id user_nft = x /\
    UserNFT.user_id user_nft = uid /\ UserNFT.is_sold user_nft = false /\
    In nft (nfts db) /\ NFT.id nft = UserNFT.nft_id user_nft /\
    sell_price_of (NFT.price nft) = Return s /\
    In user (users db) /\ User.id user = uid /\
    db' = sold_db db x uid (User.stars_balance user + s) s.
Proof.
  unfold sell_nft.
  destruct (first _ (user_nfts db)) as [user_nft|] eqn:E1.
  2:{ intros H. inversion H. left. auto. }
  destruct (first _ (nfts db)) as [nft|] eqn:E2; [|discriminate].
  unfold bind.
  destruct (sell_price_of (NFT.price nft)) as [s|e] eqn:E3; [|discriminate].
  destruct (first _ (users db)) as [user|] eqn:E4; [|discriminate].
  intros H. inversion H; subst. right.
  apply first_some in E1, E2, E4.
  destruct E1 as [In1 F1], E2 as [In2 F2], E4 as [In4 F4].
  apply andb_prop in F1. destruct F1 as [F1 Fs].
  apply andb_prop in F1. destruct F1 as [Fi Fu].
  apply Z.eqb_eq in Fi, Fu, F2, F4. apply negb_true_iff in Fs.
  exists user_nft, nft, user, s. unfold sold_db. rewrite Fi, F4.
  repeat split; auto.
Qed.

Lemma sell_nft_success (db : Db) (x uid s : Z)
    (user_nft : UserNFT.t) (nft : NFT.t) (user : User.t) :
  first (fun r => (UserNFT.id r =? x) && (UserNFT.user_id r =? uid)
                  && negb (UserNFT.is_sold r)) (user_nfts db) = Some user_nft ->
  first (fun n => NFT.id n =? UserNFT.nft_id user_nft) (nfts db) = Some nft ->
  sell_price_of (NFT.price nft) = Return s ->
  first (fun u => User.id u =? uid) (users db) = Some user ->
  sell_nft db x uid =
  Return (sold_db db x uid (User.stars_balance user + s) s, Some s).
Proof.
  intros E1 E2 E3 E4. unfold sell_nft. rewrite E1, E2, E3. simpl. rewrite E4.
  apply first_some in E1, E4. destruct E1 as [_ F1], E4 as [_ F4].
  apply andb_prop in F1. destruct F1 as [F1 _].
  apply andb_prop in F1. destruct F1 as [Fi _].
  apply Z.eqb_eq in Fi, F4. rewrite Fi, F4. reflexivity.
Qed.

Lemma mark_sold_all_sold (x s : Z) (rows : list UserNFT.t) (r : UserNFT.t) :
  In r (mark_sold x s rows) -> UserNFT.id r = x -> UserNFT.is_sold r = true.
Proof.
  unfold mark_sold. rewrite in_map_iff. intros [r0 [E _]] Hid.
  destruct (UserNFT.id r0 =? x) eqn:Ex.
  - subst r. reflexivity.
  - subst r. apply Z.eqb_neq in Ex. contradiction.
Qed.

Lemma mark_sold_nth (x s : Z) (rows : list UserNFT.t) (i : nat) (r : UserNFT.t) :
  nth_error rows i = Some r ->
  exists r', nth_error (mark_sold x s rows) i = Some r' /\
             UserNFT.id r' = UserNFT.id r /\
             UserNFT.user_id r' = UserNFT.user_id r /\
             UserNFT.nft_id r' = UserNFT.nft_id r /\
             (UserNFT.is_sold r = true -> UserNFT.is_sold r' = true).
Proof.
  intros H. unfold mark_sold. rewrite nth_error_map, H. simpl.
  destruct (UserNFT.id r =? x); eexists; split; try reflexivity; simpl; auto.
Qed.

(** ** What [openCase] does *)


Lemma openCase_inv (db : Db) (u : Q) (userId caseId : Z) :
  (fst (openCase db u userId caseId) = db /\
   exists e, snd (openCase db u userId caseId) = inl e) \/
  exists user case item,
    In user (users db) /\ User.id user = userId /\
    In case (cases db) /\
    Case.price_stars case <= User.stars_balance user /\
    openCase db u userId caseId =
    (opened_db db user case userId caseId item,
     inr (item, User.stars_balance user - Case.price_stars case)).
Proof.
  unfold openCase.
  destruct (first _ (users db)) as [user|] eqn:E1; [|left; simpl; eauto].
  destruct (first _ (cases db)) as [case|] eqn:E2; [|left; simpl; eauto].
  destruct (negb (Case.is_active case)); [left; simpl; eauto|].
  destruct (get_case_nfts db caseId) as [|c contents]; [left; simpl; eauto|].
  destruct (User.stars_balance user <? Case.price_stars case) eqn:E3;
    [left; simpl; eauto|].
  destruct (open_case u (c :: contents)) as [[item|]|e];
    [|left; simpl; eauto|left; simpl; eauto].
  right. apply first_some in E1, E2.
  destruct E1 as [In1 F1], E2 as [In2 _].
  apply Z.eqb_eq in F1. apply Z.ltb_ge in E3.
  exists user, case, item. repeat split; auto.
Qed.

(** ** Steps of the store *)

Lemma step_catalog (db db' : Db) :
  step db db' -> nfts db' = nfts db /\ cases db' = cases db.
Proof.
  intros H. destruct H as [db tg un fn ln|db uid nid cid|db x uid db' r E|db u uid cid].
  - unfold get_or_create_user.
    destruct (first _ (users db)); simpl; auto.
  - simpl. auto.
  - apply sell_nft_inv in E.
    destruct E as [[_ ->]|(un & n & usr & s & _ & _ & _ & _ & _ & _ & _ & _ & _ & _ & ->)];
      simpl; auto.
  - destruct (openCase_inv db u uid cid)
      as [[-> _]|(usr & c & it & _ & _ & _ & _ & ->)]; simpl; auto.
Qed.

Lemma set_balance_nonneg (id b : Z) (rows : list User.t) :
  0 <= b ->
  Forall (fun user => 0 <= User.stars_balance user) rows ->
  Forall (fun user => 0 <= User.stars_balance user) (set_balance id b rows).
Proof.
  intros Hb H. unfold set_balance. apply Forall_map.
  eapply Forall_impl; [|exact H]. intros r Hr.
  destruct (User.id r =? id); simpl; auto.
Qed.

Lemma charge_nonneg (user : User.t) (price : Z) (rows : list User.t) :
  price <= User.stars_balance user ->
  Forall (fun user => 0 <= User.stars_balance user) rows ->
  Forall (fun user => 0 <= User.stars_balance user) (charge user price rows).
Proof.
  intros Hb H. unfold charge. apply Forall_map.
  eapply Forall_impl; [|exact H]. intros r Hr.
  destruct (User.id r =? User.id user); simpl; auto. lia.
Qed.

Lemma step_balances (db db' : Db) :
  prices_nonneg db -> balances_nonneg db -> step db db' -> balances_nonneg db'.
Proof.
  unfold balances_nonneg. intros [Hn Hc] Hb H.
  destruct H as [db tg un fn ln|db uid nid cid|db x uid db' r E|db u uid cid].
  - unfold get_or_create_user.
    destruct (first _ (users db)); simpl; auto.
    apply Forall_app. split; auto. constructor; simpl; [lia|constructor].
  - simpl. auto.
  - apply sell_nft_inv in E.
    destruct E as [[_ ->]|(un & n & usr & s & _ & _ & _ & _ & _ & Hin & _ & Hs & Hu & _ & ->)];
      auto.
    simpl. rewrite Forall_forall in Hn, Hb.
    apply set_balance_nonneg; [|apply Forall_forall; exact Hb].
    apply sell_price_of_nonneg in Hs; [|apply Hn; exact Hin].
    specialize (Hb usr Hu). simpl in Hb. lia.
  - destruct (openCase_inv db u uid cid)
      as [[-> _]|(usr & c & it & _ & _ & _ & Hle & ->)]; auto.
    simpl. apply charge_nonneg; auto.
Qed.

Lemma step_sold_stays (db db' : Db) (i : nat) (r : UserNFT.t) :
  step db db' ->
  nth_error (user_nfts db) i = Some r -> UserNFT.is_sold r = true ->
  exists r', nth_error (user_nfts db') i = Some r' /\
             UserNFT.id r' = UserNFT.id r /\ UserNFT.is_sold r' = true.
Proof.
  intros H Hi Hs.
  assert (Hlt : (i < length (user_nfts db))%nat)
    by (apply nth_error_Some; congruence).
  destruct H as [db tg un fn ln|db uid nid cid|db x uid db' r0 E|db u uid cid].
  - unfold get_or_create_user.
    destruct (first _ (users db)); simpl; eauto.
  - simpl. rewrite nth_error_app1 by exact Hlt. eauto.
  - apply sell_nft_inv in E.
    destruct E as [[_ ->]|(un & n & usr & s & _ & _ & _ & _ & _ & _ & _ & _ & _ & _ & ->)];
      eauto.
    simpl. destruct (mark_sold_nth x s _ _ _ Hi) as (r' & E' & Hid & _ & _ & Hsold).
    eauto.
  - destruct (openCase_inv db u uid cid)
      as [[-> _]|(usr & c & it & _ & _ & _ & _ & ->)]; eauto.
    simpl. rewrite nth_error_app1 by exact Hlt. eauto.
Qed.

(** ** The draw on an empty pool *)

(** C7: [open_case] on an empty candidate list gives no item, whatever
    the random source returns: it returns [None] (the empty-pool
    failure) and never a drawn item. *)
Theorem open_case_empty_pool :
  forall u : Q,
    open_case u [] = Return None /\
    (forall item, open_case u [] <> Return (Some item)).
Proof.
  intros u. split; [reflexivity|]. intros item H. discriminate H.
Qed.

(** ** Get-or-create *)

(** C10: when a user with the telegram id is already stored,
    [get_or_create_user] hands back a stored row with that id and leaves
    the store as it is: neither the balance nor the names of any row
    change, whatever names the later contact supplies. *)
Theorem get_or_create_user_existing :
  forall db telegram_id username first_name last_name existing,
    In existing (users db) -> User.telegram_id existing = telegram_id ->
    exists user,
      get_or_create_user db telegram_id username first_name last_name = (db, user) /\
      first (fun u => User.telegram_id u =? telegram_id) (users db) = Some user /\
      In user (users db) /\ User.telegram_id user = telegram_id.
Proof.
  intros db tg un fn ln existing Hin Htg. unfold get_or_create_user.
  destruct (first (fun u => User.telegram_id u =? tg) (users db)) as [user|] eqn:E.
  - exists user. apply first_some in E as E'. destruct E' as [Hu Hf].
    apply Z.eqb_eq in Hf. auto.
  - exfalso. unfold first in E.
    pose proof (find_none _ _ E existing Hin) as Hn. simpl in Hn.
    apply Z.eqb_neq in Hn. contradiction.
Qed.

Lemma get_or_create_user_existing_witness :
  In (User.mk 1 777 (Some "bob") (Some "Bob") None 100 0 0) (users demo_db) /\
  exists user,
    get_or_create_user demo_db 777 (Some "eve") None (Some "Evil") = (demo_db, user) /\
    first (fun u => User.telegram_id u =? 777) (users demo_db) = Some user /\
    In user (users demo_db) /\ User.telegram_id user = 777.
Proof.
  split; [left; reflexivity|].
  apply (get_or_create_user_existing demo_db 777 (Some "eve") None (Some "Evil")
           (User.mk 1 777 (Some "bob") (Some "Bob") None 100 0 0)).
  - left. reflexivity.
  - reflexivity.
Defined.

(** ** Selling *)

Example sell_price_small_range :
  forallb (fun p => match sell_price_of p with
                    | Return s => (s =? 7 * p / 10) || (s =? 7 * p / 10 - 1)
                    | Raise _ => false
                    end)
          (map Z.of_nat (seq 0 2001)) = true.
Proof. vm_compute. reflexivity. Qed.

Example sell_price_off_by_one_below_200 :
  filter (fun p => match sell_price_of p with
                   | Return s => negb (s =? 7 * p / 10)
                   | Raise _ => true
                   end)
         (map Z.of_nat (seq 0 200)) = [90; 170; 180].
Proof. vm_compute. reflexivity. Qed.

(** C3 at an item priced 90: the sale of entry 2 of [demo_db] to its
    owner succeeds, returns 62, records 62 as the sold price and takes
    the balance from 100 to 162, while seventy percent of 90, rounded
    down, is 63. *)
Theorem sell_nft_price_90_credits_62 :
  sell_nft demo_db 2 1 = Return (sold_db demo_db 2 1 162 62, Some 62) /\
  map User.stars_balance (users (sold_db demo_db 2 1 162 62)) = [162] /\
  map UserNFT.sold_price (user_nfts (sold_db demo_db 2 1 162 62)) = [None; Some 62] /\
  Qfloor (90 * (7 # 10)) = 63.
Proof. vm_compute. repeat split; reflexivity. Qed.

(** The entry priced 100 is sold for 70. *)
Example sell_nft_price_100_credits_70 :
  sell_nft demo_db 1 1 = Return (sold_db demo_db 1 1 170 70, Some 70).
Proof. vm_compute. reflexivity. Qed.

(** C4: [sell_nft] returns [None] and leaves the store as it is when no
    row with the entry id is both owned by the caller and unsold; after
    a successful sale a second sale of the same entry, by anyone, again
    returns [None] and changes nothing; and along any run of the store a
    row that is sold stays sold. *)
Theorem sell_nft_not_found_and_terminal :
  forall db user_nft_id user_id,
    ((forall r, In r (user_nfts db) -> UserNFT.id r = user_nft_id ->
                UserNFT.user_id r <> user_id \/ UserNFT.is_sold r = true) ->
     sell_nft db user_nft_id user_id = Return (db, None)) /\
    (forall db' s, sell_nft db user_nft_id user_id = Return (db', Some s) ->
       forall other, sell_nft db' user_nft_id other = Return (db', None)) /\
    (forall db', reachable db db' ->
       forall i r, nth_error (user_nfts db) i = Some r -> UserNFT.is_sold r = true ->
         exists r', nth_error (user_nfts db') i = Some r' /\
                    UserNFT.id r' = UserNFT.id r /\ UserNFT.is_sold r' = true).
Proof.
  intros db x uid. split; [|split].
  - intros H. unfold sell_nft. rewrite first_none; [reflexivity|].
    intros r Hr.
    destruct (UserNFT.id r =? x) eqn:Ei; [|reflexivity].
    apply Z.eqb_eq in Ei. destruct (H r Hr Ei) as [Hu|Hs].
    + apply Z.eqb_neq in Hu. rewrite Hu. reflexivity.
    + rewrite Hs. simpl. apply andb_false_r.
  - intros db' s E other. apply sell_nft_inv in E.
    destruct E as [[E _]|(un & n & usr & s' & _ & _ & _ & _ & _ & _ & _ & _ & _ & _ & ->)];
      [discriminate|].
    unfold sell_nft. rewrite first_none; [reflexivity|].
    intros r Hr. simpl in Hr.
    destruct (UserNFT.id r =? x) eqn:Ei; [|reflexivity].
    apply Z.eqb_eq in Ei. rewrite (mark_sold_all_sold x s' _ r Hr Ei).
    simpl. apply andb_false_r.
  - intros db' Hreach. induction Hreach as [|db1 db2 Hreach IH Hstep].
    + intros i r Hi Hs. eauto.
    + intros i r Hi Hs. destruct (IH i r Hi Hs) as (r1 & Hi1 & Hid1 & Hs1).
      destruct (step_sold_stays db1 db2 i r1 Hstep Hi1 Hs1) as (r2 & Hi2 & Hid2 & Hs2).
      exists r2. repeat split; congruence.
Qed.

Lemma sell_nft_not_found_and_terminal_witness :
  sell_nft demo_db 7 1 = Return (demo_db, None) /\
  sell_nft demo_db 1 2 = Return (demo_db, None) /\
  sell_nft (sold_db demo_db 1 1 170 70) 1 1 =
  Return (sold_db demo_db 1 1 170 70, None).
Proof.
  split; [|split].
  - apply (proj1 (sell_nft_not_found_and_terminal demo_db 7 1)).
    intros r Hr Hid. simpl in Hr.
    destruct Hr as [<-|[<-|[]]]; simpl in Hid; discriminate Hid.
  - apply (proj1 (sell_nft_not_found_and_terminal demo_db 1 2)).
    intros r Hr Hid. simpl in Hr.
    destruct Hr as [<-|[<-|[]]]; simpl in Hid; try discriminate Hid.
    left. simpl. discriminate.
  - apply (proj1 (proj2 (sell_nft_not_found_and_terminal demo_db 1 1))
             (sold_db demo_db 1 1 170 70) 70).
    vm_compute. reflexivity.
Defined.

(** ** Opening a case *)



(** ** Balances *)

Lemma reachable_invariant (db db' : Db) :
  prices_nonneg db -> balances_nonneg db -> reachable db db' ->
  balances_nonneg db' /\ prices_nonneg db'.
Proof.
  intros Hp Hb H. induction H as [|db1 db2 H IH Hstep]; [auto|].
  destruct IH as [Hb1 Hp1]. split.
  - eapply step_balances; eauto.
  - destruct (step_catalog _ _ Hstep) as [En Ec].
    unfold prices_nonneg. rewrite En, Ec. exact Hp1.
Qed.

(** C6: from a store whose item and case prices and balances are all
    non-negative, every store reached by creating users, adding
    inventory rows, selling and opening cases has all balances
    non-negative.  A created user starts at 1000 and the rows already
    stored are kept as they are; adding an inventory row leaves the user
    table alone. *)
Theorem balances_never_negative :
  forall db,
    prices_nonneg db -> balances_nonneg db ->
    (forall db', reachable db db' -> balances_nonneg db') /\
    (forall telegram_id username first_name last_name,
        let db' := fst (get_or_create_user db telegram_id username first_name last_name) in
        users db' = users db \/
        exists user, users db' = (users db ++ [user])%list /\
                     User.stars_balance user = 1000 /\
                     User.total_spent_stars user = 0) /\
    (forall user_id nft_id case_id,
        users (fst (add_nft_to_inventory db user_id nft_id case_id)) = users db).
Proof.
  intros db Hp Hb. split; [|split].
  - intros db' H. apply (reachable_invariant db db' Hp Hb H).
  - intros tg un fn ln. unfold get_or_create_user.
    destruct (first _ (users db)); simpl; [left; reflexivity|].
    right. eexists. split; [reflexivity|]. split; reflexivity.
  - reflexivity.
Qed.

Lemma balances_never_negative_witness :
  prices_nonneg demo_db /\ balances_nonneg demo_db /\
  balances_nonneg (sold_db demo_db 2 1 162 62).
Proof.
  assert (Hp : prices_nonneg demo_db).
  { split; repeat constructor; simpl; lia. }
  assert (Hb : balances_nonneg demo_db).
  { repeat constructor; simpl; lia. }
  split; [exact Hp|]. split; [exact Hb|].
  apply (proj1 (balances_never_negative demo_db Hp Hb)).
  eapply reach_step; [apply reach_refl|].
  apply (step_sell_nft demo_db 2 1 _ (Some 62)).
  vm_compute. reflexivity.
Defined.

(** ** The weighted draw *)

Lemma Qltb_lt (x y : Q) : Qltb x y = true <-> (x < y)%Q.
Proof.
  unfold Qltb. rewrite Qlt_alt.
  destruct (x ?= y)%Q; split; congruence.
Qed.

Lemma Qltb_ge (x y : Q) : Qltb x y = false <-> (y <= x)%Q.
Proof.
  split; intros H.
  - apply Qnot_lt_le. intros H'. apply Qltb_lt in H'. congruence.
  - destruct (Qltb x y) eqn:E; [|reflexivity].
    apply Qltb_lt in E. exfalso. exact (Qlt_not_le _ _ E H).
Qed.

Lemma Qltb_compat (x x' y y' : Q) :
  (x == x')%Q -> (y == y')%Q -> Qltb x y = Qltb x' y'.
Proof.
  intros Hx Hy. unfold Qltb. rewrite (Qcompare_comp x x' Hx y y' Hy). reflexivity.
Qed.

Lemma half_between (lo hi : nat) :
  (lo < hi)%nat -> (lo <= (lo + hi) / 2 < hi)%nat.
Proof.
  intros H.
  pose proof (Nat.div_mod_eq (lo + hi) 2) as E.
  pose proof (Nat.mod_upper_bound (lo + hi) 2) as B.
  lia.
Qed.

Section Bisect.

Variable a : list Q.
Variable x : Q.
Variable N : nat.

(** [exceeds i]: the draw point lies strictly below [a[i]]. *)
Let exceeds (i : nat) : Prop := Qltb x (nth i a 0%Q) = true.

Hypothesis exceeds_mono :
  forall i j, (i <= j < N)%nat -> exceeds i -> exceeds j.

(** The binary search stops on the boundary between the indices that
    do not exceed the draw point and those that do. *)
Lemma bisect_loop_spec (fuel : nat) :
  forall lo hi,
    (hi - lo <= fuel)%nat -> (lo <= hi <= N)%nat ->
    (lo <= Random.bisect_loop fuel a x lo hi <= hi)%nat /\
    (forall i, (lo <= i < Random.bisect_loop fuel a x lo hi)%nat -> ~ exceeds i) /\
    (forall i, (Random.bisect_loop fuel a x lo hi <= i < hi)%nat -> exceeds i).
Proof.
  induction fuel as [|fuel IH]; intros lo hi Hfuel Hrange;
    cbn [Random.bisect_loop].
  - split; [lia|]. split; intros i Hi; lia.
  - destruct (lo <? hi)%nat eqn:Elt.
    2:{ apply Nat.ltb_ge in Elt. split; [lia|]. split; intros i Hi; lia. }
    apply Nat.ltb_lt in Elt.
    pose proof (half_between lo hi Elt) as Hmid.
    set (mid := ((lo + hi) / 2)%nat) in *.
    destruct (Qltb x (nth mid a 0%Q)) eqn:Emid.
    + destruct (IH lo mid) as (Hres & Hbelow & Habove); [lia|lia|].
      split; [lia|]. split; [exact Hbelow|].
      intros i Hi.
      destruct (Nat.lt_ge_cases i mid) as [Him|Him].
      * apply Habove. lia.
      * apply (exceeds_mono mid i); [lia|exact Emid].
    + destruct (IH (mid + 1)%nat hi) as (Hres & Hbelow & Habove); [lia|lia|].
      split; [lia|]. split; [|exact Habove].
      intros i Hi Hex.
      destruct (Nat.lt_ge_cases mid i) as [Him|Him].
      * apply (Hbelow i); [lia|exact Hex].
      * assert (Hm : exceeds mid) by (apply (exceeds_mono i mid); [lia|exact Hex]).
        unfold exceeds in Hm. congruence.
Qed.

End Bisect.

Lemma accumulate_from_length (ws : list Q) :
  forall acc, length (Random.accumulate_from acc ws) = length ws.
Proof.
  induction ws as [|w ws IH]; intros acc; simpl; [reflexivity|].
  rewrite IH. reflexivity.
Qed.

Lemma accumulate_length (ws : list Q) :
  length (Random.accumulate ws) = length ws.
Proof.
  destruct ws as [|w ws]; simpl; [reflexivity|].
  rewrite accumulate_from_length. reflexivity.
Qed.

Lemma accumulate_from_ge (ws : list Q) :
  Forall (fun w => 0 < w)%Q ws ->
  forall acc j, (j < length ws)%nat ->
    (acc <= nth j (Random.accumulate_from acc ws) 0)%Q.
Proof.
  induction 1 as [|w ws Hw Hws IH]; intros acc j Hj; simpl in *; [lia|].
  assert (Hacc : (acc <= acc + w)%Q).
  { rewrite <- (Qplus_0_r acc) at 1.
    apply Qplus_le_compat; [apply Qle_refl|apply Qlt_le_weak; exact Hw]. }
  destruct j as [|j]; [exact Hacc|].
  eapply Qle_trans; [exact Hacc|]. apply IH. lia.
Qed.

Lemma accumulate_from_mono (ws : list Q) :
  Forall (fun w => 0 < w)%Q ws ->
  forall acc i j, (i <= j < length ws)%nat ->
    (nth i (Random.accumulate_from acc ws) 0
     <= nth j (Random.accumulate_from acc ws) 0)%Q.
Proof.
  induction 1 as [|w ws Hw Hws IH]; intros acc i j Hij; simpl in *; [lia|].
  destruct i as [|i], j as [|j]; try lia.
  - apply Qle_refl.
  - apply accumulate_from_ge; [exact Hws|lia].
  - apply IH. lia.
Qed.

Lemma accumulate_mono (ws : list Q) :
  Forall (fun w => 0 < w)%Q ws ->
  forall i j, (i <= j < length ws)%nat ->
    (nth i (Random.accumulate ws) 0 <= nth j (Random.accumulate ws) 0)%Q.
Proof.
  intros H i j Hij. destruct ws as [|w ws]; simpl in *; [lia|].
  inversion H as [|w' ws' Hw Hws]; subst.
  destruct i as [|i], j as [|j]; try lia.
  - apply Qle_refl.
  - apply accumulate_from_ge; [exact Hws|lia].
  - apply accumulate_from_mono; [exact Hws|lia].
Qed.

Lemma last_cons_default {A : Type} (l : list A) :
  forall a d, last (a :: l) d = last l a.
Proof.
  induction l as [|b l IH]; intros a d; [reflexivity|].
  change (last (a :: b :: l) d) with (last (b :: l) d).
  rewrite (IH b d), (IH b a). reflexivity.
Qed.

Lemma last_is_nth {A : Type} (l : list A) (d : A) :
  last l d = nth (length l - 1) l d.
Proof.
  induction l as [|a l IH]; [reflexivity|].
  destruct l as [|b l]; [reflexivity|].
  change (last (a :: b :: l) d) with (last (b :: l) d).
  rewrite IH. simpl. rewrite Nat.sub_0_r. reflexivity.
Qed.

Lemma accumulate_from_last (ws : list Q) :
  forall acc, (last (Random.accumulate_from acc ws) acc == acc + sum_weights ws)%Q.
Proof.
  induction ws as [|w ws IH]; intros acc.
  - simpl. rewrite Qplus_0_r. reflexivity.
  - cbn [Random.accumulate_from]. rewrite last_cons_default, IH.
    unfold sum_weights. simpl. rewrite Qplus_assoc. reflexivity.
Qed.

Lemma accumulate_last (ws : list Q) :
  (last (Random.accumulate ws) 0 == sum_weights ws)%Q.
Proof.
  destruct ws as [|w ws]; [reflexivity|].
  unfold Random.accumulate. rewrite last_cons_default.
  rewrite accumulate_from_last. reflexivity.
Qed.

Lemma total_weight_sum (items : list CaseItem) :
  total_weight items = sum_weights (map chance items).
Proof.
  induction items as [|item items IH]; simpl; [reflexivity|].
  rewrite <- IH. reflexivity.
Qed.

Lemma collect_eq (items : list CaseItem) :
  collect items = (items, map chance items).
Proof.
  unfold collect.
  assert (H : forall l a b,
             fold_left (fun acc item => ((fst acc ++ [item])%list,
                                         (snd acc ++ [chance item])%list))
                       l (a, b)
             = ((a ++ l)%list, (b ++ map chance l)%list)).
  { induction l as [|item l IH]; intros a b; simpl.
    - rewrite !app_nil_r. reflexivity.
    - rewrite IH. rewrite <- !app_assoc. reflexivity. }
  apply (H items [] []).
Qed.

Lemma candidates_of_combine (items : list CaseItem) :
  candidates_of items = combine items (map chance items).
Proof.
  induction items as [|item items IH]; simpl; [reflexivity|].
  unfold candidates_of in IH. rewrite <- IH. reflexivity.
Qed.

(** The walk stops at the first index whose running sum exceeds the
    draw point. *)
Lemma spec_walk_first_exceeding {A : Type} (r : Q) (ws : list Q) :
  forall (items : list A) (acc acc' : Q) (i : nat) (x : A),
    (acc == acc')%Q ->
    (i < length ws)%nat ->
    nth_error items i = Some x ->
    Qltb r (nth i (Random.accumulate_from acc' ws) 0%Q) = true ->
    (forall j, (j < i)%nat -> Qltb r (nth j (Random.accumulate_from acc' ws) 0%Q) = false) ->
    spec_walk acc r (combine items ws) = Some x.
Proof.
  induction ws as [|w ws IH]; intros items acc acc' i x Hacc Hlen Hx Hi Hbelow.
  - simpl in Hlen. lia.
  - destruct items as [|x0 items]; [destruct i; discriminate|].
    assert (Hstep : (acc + w == acc' + w)%Q) by (rewrite Hacc; reflexivity).
    simpl. destruct i as [|i].
    + simpl in Hi, Hx. inversion Hx; subst.
      rewrite (Qltb_compat r r (acc + w) (acc' + w)) by (auto; reflexivity).
      rewrite Hi. reflexivity.
    + rewrite (Qltb_compat r r (acc + w) (acc' + w)) by (auto; reflexivity).
      pose proof (Hbelow O ltac:(lia)) as H0. simpl in H0. rewrite H0.
      simpl in Hlen.
      apply (IH items (acc + w)%Q (acc' + w)%Q i x Hstep ltac:(lia) Hx Hi).
      intros j Hj. apply (Hbelow (S j)). lia.
Qed.

Lemma spec_walk_accumulate {A : Type} (r : Q) (ws : list Q) (items : list A)
    (i : nat) (x : A) :
  (i < length ws)%nat ->
  nth_error items i = Some x ->
  Qltb r (nth i (Random.accumulate ws) 0%Q) = true ->
  (forall j, (j < i)%nat -> Qltb r (nth j (Random.accumulate ws) 0%Q) = false) ->
  spec_walk 0 r (combine items ws) = Some x.
Proof.
  destruct ws as [|w ws]; [simpl; lia|].
  destruct items as [|x0 items]; [destruct i; discriminate|].
  intros Hlen Hx Hi Hbelow.
  cbn [combine spec_walk].
  rewrite (Qltb_compat r r (0 + w) w) by (reflexivity || apply Qplus_0_l).
  destruct i as [|i].
  - simpl in Hi, Hx. rewrite Hi. congruence.
  - pose proof (Hbelow O ltac:(lia)) as H0. simpl in H0. rewrite H0.
    simpl in Hlen, Hx, Hi.
    apply (spec_walk_first_exceeding r ws items (0 + w)%Q w i x
             (Qplus_0_l w) ltac:(lia) Hx Hi).
    intros j Hj. apply (Hbelow (S j)). lia.
Qed.

(** The running sums are the sums of the prefixes of the weights. *)
Lemma accumulate_from_prefix (ws : list Q) :
  forall acc i, (i < length ws)%nat ->
    (nth i (Random.accumulate_from acc ws) 0 == acc + sum_weights (firstn (S i) ws))%Q.
Proof.
  induction ws as [|w ws IH]; intros acc i Hi; [simpl in Hi; lia|].
  destruct i as [|i].
  - simpl. unfold sum_weights. simpl. rewrite Qplus_0_r. reflexivity.
  - simpl in Hi. cbn [Random.accumulate_from nth].
    rewrite IH by lia.
    change (sum_weights (firstn (S (S i)) (w :: ws)))
      with (w + sum_weights (firstn (S i) ws))%Q.
    rewrite Qplus_assoc. reflexivity.
Qed.

Lemma accumulate_prefix (ws : list Q) (i : nat) :
  (i < length ws)%nat ->
  (nth i (Random.accumulate ws) 0 == sum_weights (firstn (S i) ws))%Q.
Proof.
  destruct ws as [|w ws]; intros Hi; [simpl in Hi; lia|].
  destruct i as [|i].
  - simpl. unfold sum_weights. simpl. rewrite Qplus_0_r. reflexivity.
  - simpl in Hi. cbn [Random.accumulate nth].
    rewrite accumulate_from_prefix by lia. reflexivity.
Qed.

Lemma choices_first_exceeding {A : Type} (u r : Q)
    (population : list A) (weights : list Q) :
  length population = length weights -> weights <> [] ->
  Forall (fun w => 0 < w)%Q weights ->
  (0 <= r)%Q -> (r < sum_weights weights)%Q ->
  (u * sum_weights weights == r)%Q ->
  exists i x,
    Random.choices u population weights = Return x /\
    (i < length weights)%nat /\
    nth_error population i = Some x /\
    Qltb r (nth i (Random.accumulate weights) 0%Q) = true /\
    (forall j, (j < i)%nat -> Qltb r (nth j (Random.accumulate weights) 0%Q) = false).
Proof.
  intros Hlen Hne Hpos Hr0 Hr Hu.
  set (cum := Random.accumulate weights).
  set (n := length population).
  assert (Hcum : length cum = n)
    by (unfold cum, n; rewrite accumulate_length; auto).
  assert (Hn : (0 < n)%nat).
  { unfold n. rewrite Hlen. destruct weights; [contradiction|simpl; lia]. }
  assert (Htotal : (last cum 0 + 0 == sum_weights weights)%Q).
  { rewrite Qplus_0_r. apply accumulate_last. }
  set (x := (u * (last cum 0 + 0))%Q).
  assert (Hx : (x == r)%Q) by (unfold x; rewrite Htotal; exact Hu).
  assert (Hsame : forall c, Qltb x c = Qltb r c).
  { intros c. apply Qltb_compat; [exact Hx|reflexivity]. }
  assert (Hmono : forall i j, (i <= j < n - 1)%nat ->
            Qltb x (nth i cum 0%Q) = true -> Qltb x (nth j cum 0%Q) = true).
  { intros i j Hij Hi. apply Qltb_lt. apply Qltb_lt in Hi.
    eapply Qlt_le_trans; [exact Hi|].
    apply accumulate_mono; [exact Hpos|]. rewrite <- Hlen. fold n. lia. }
  destruct (bisect_loop_spec cum x (n - 1) Hmono (n - 1 - 0) 0 (n - 1))
    as (Hres & Hbelow & Habove); [lia|lia|].
  fold (Random.bisect cum x 0 (n - 1)) in Hres, Hbelow, Habove.
  set (res := Random.bisect cum x 0 (n - 1)) in *.
  assert (Hlast : Qltb r (nth (n - 1) cum 0%Q) = true).
  { apply Qltb_lt. rewrite <- Hcum, <- last_is_nth.
    unfold cum. rewrite accumulate_last. exact Hr. }
  assert (Hex : Qltb r (nth res cum 0%Q) = true).
  { destruct (Nat.eq_dec res (n - 1)) as [->|Hne'].
    - exact Hlast.
    - rewrite <- Hsame. apply Habove. lia. }
  destruct (nth_error population res) as [item|] eqn:Eitem.
  2:{ apply nth_error_None in Eitem. fold n in Eitem. lia. }
  exists res, item. split; [|split; [|split; [|split]]].
  - unfold Random.choices. fold cum. fold n. rewrite Hcum, Nat.eqb_refl.
    cbn [negb]. cbv zeta.
    assert (Hq : Qleb (last cum 0 + 0)%Q 0%Q = false).
    { unfold Qleb. apply negb_false_iff. apply Qltb_lt.
      rewrite Htotal. eapply Qle_lt_trans; eauto. }
    rewrite Hq. fold x. fold res. rewrite Eitem. reflexivity.
  - rewrite <- Hlen. fold n. lia.
  - exact Eitem.
  - exact Hex.
  - intros j Hj. rewrite <- Hsame.
    destruct (Qltb x (nth j cum 0%Q)) eqn:E; [|reflexivity].
    exfalso. apply (Hbelow j); [lia|exact E].
Qed.



Example open_case_demo_pool :
  open_case (1 # 2) demo_pool
  = Return (Some (mkCaseItem 12 "Ring" None "epic" 500 None 2%Q)) /\
  open_case (49 # 100) demo_pool
  = Return (Some (mkCaseItem 11 "Bear" None "rare" 90 None 1%Q)) /\
  open_case 0 demo_pool
  = Return (Some (mkCaseItem 10 "Rose" None "common" 100 None 1%Q)).
Proof. vm_compute. repeat split; reflexivity. Qed.

(** ** Splitting and joining strings *)

Lemma split_nonempty (sep : ascii) (s : string) : split sep s <> [].
Proof.
  destruct s as [|c s]; simpl; [discriminate|].
  destruct (Ascii.eqb c sep); [discriminate|].
  destruct (split sep s); discriminate.
Qed.

Lemma split_without_sep (sep : ascii) (s : string) :
  contains sep s = false -> split sep s = [s].
Proof.
  induction s as [|c s IH]; simpl; intros H; [reflexivity|].
  apply orb_false_iff in H. destruct H as [Hc Hs].
  rewrite Hc, (IH Hs). reflexivity.
Qed.

Lemma split_with_sep (sep : ascii) (s : string) :
  contains sep s = true -> exists a b rest, split sep s = a :: b :: rest.
Proof.
  induction s as [|c s IH]; simpl; intros H; [discriminate|].
  destruct (Ascii.eqb c sep) eqn:Ec.
  - destruct (split sep s) as [|b rest] eqn:Es; [destruct (split_nonempty _ _ Es)|].
    eauto.
  - simpl in H. destruct (IH H) as (a & b & rest & E). rewrite E. eauto.
Qed.

Lemma split_app (sep : ascii) (a b : string) :
  split sep (a ++ String sep b) = (split sep a ++ split sep b)%list.
Proof.
  induction a as [|c a IH]; simpl.
  - rewrite Ascii.eqb_refl. reflexivity.
  - destruct (Ascii.eqb c sep); [rewrite IH; reflexivity|].
    rewrite IH.
    destruct (split sep a) as [|seg segs] eqn:Es; [destruct (split_nonempty _ _ Es)|].
    reflexivity.
Qed.

Lemma split_join (sep : ascii) (segs : list string) :
  segs <> [] ->
  split sep (join (String sep EmptyString) segs) = flat_map (split sep) segs.
Proof.
  induction segs as [|s segs IH]; intros Hne; [contradiction|].
  destruct segs as [|s' segs].
  - simpl. rewrite app_nil_r. reflexivity.
  - change (join (String sep EmptyString) (s :: s' :: segs))
      with (s ++ String sep (join (String sep EmptyString) (s' :: segs))).
    rewrite split_app, IH by discriminate. reflexivity.
Qed.

Lemma contains_app (c : ascii) (a b : string) :
  contains c (a ++ b) = contains c a || contains c b.
Proof.
  induction a as [|x a IH]; simpl; [reflexivity|].
  rewrite IH, orb_assoc. reflexivity.
Qed.

Lemma append_assoc (a b c : string) : (a ++ b) ++ c = a ++ (b ++ c).
Proof.
  induction a as [|x a IH]; simpl; [reflexivity|]. rewrite IH. reflexivity.
Qed.

Lemma append_inv_same_length (a a' b b' : string) :
  String.length a = String.length a' -> a ++ b = a' ++ b' -> a = a' /\ b = b'.
Proof.
  revert a'. induction a as [|x a IH]; intros [|x' a'] Hlen H;
    simpl in *; try discriminate; [auto|].
  inversion H; subst. destruct (IH a') as [-> ->]; auto.
Qed.

(** ** Unpacking a segment *)

Lemma unpack_pair_plain (k v : string) :
  contains "=" k = false -> contains "=" v = false ->
  unpack_pair (k ++ String "=" v) = Return (k, v).
Proof.
  intros Hk Hv. unfold unpack_pair.
  rewrite split_app, (split_without_sep _ _ Hk), (split_without_sep _ _ Hv).
  reflexivity.
Qed.

Lemma unpack_pair_second_eq (k v : string) :
  contains "=" k = false -> contains "=" v = true ->
  unpack_pair (k ++ String "=" v) = Raise ValueError.
Proof.
  intros Hk Hv. unfold unpack_pair.
  rewrite split_app, (split_without_sep _ _ Hk).
  destruct (split_with_sep _ _ Hv) as (a & b & rest & ->). reflexivity.
Qed.

Lemma unpack_pair_no_eq (seg : string) :
  contains "=" seg = false -> unpack_pair seg = Raise ValueError.
Proof.
  intros H. unfold unpack_pair. rewrite (split_without_sep _ _ H). reflexivity.
Qed.

Lemma spec_split_first_none (seg : string) :
  spec_split_first seg = None -> contains "=" seg = false.
Proof.
  induction seg as [|c seg IH]; simpl; [reflexivity|].
  destruct (Ascii.eqb c "="); [discriminate|].
  destruct (spec_split_first seg) as [[k v]|]; [discriminate|].
  intros _. apply IH. reflexivity.
Qed.

Lemma spec_split_first_some (seg k v : string) :
  spec_split_first seg = Some (k, v) ->
  seg = k ++ String "=" v /\ contains "=" k = false.
Proof.
  revert k. induction seg as [|c seg IH]; simpl; intros k; [discriminate|].
  destruct (Ascii.eqb c "=") eqn:Ec.
  - intros H. inversion H; subst. apply Ascii.eqb_eq in Ec. subst. auto.
  - destruct (spec_split_first seg) as [[k0 v0]|]; [|discriminate].
    intros H. inversion H; subst.
    destruct (IH k0 eq_refl) as [-> Hk]. simpl. rewrite Ec. auto.
Qed.

(** ** The parsing loop *)

Lemma parse_loop_app (l1 l2 : list string) :
  forall st,
    parse_loop (l1 ++ l2) st = (st' <- parse_loop l1 st ;; parse_loop l2 st').
Proof.
  induction l1 as [|seg l1 IH]; intros st; simpl; [reflexivity|].
  destruct (parse_step st seg) as [st'|e]; simpl; [apply IH|reflexivity].
Qed.

Lemma parse_loop_raise (segs : list string) (seg : string) (e : exn) :
  In seg segs -> unpack_pair seg = Raise e ->
  forall st, exists e', parse_loop segs st = Raise e'.
Proof.
  intros Hin Hbad. induction segs as [|s segs IH]; [contradiction|].
  intros st. simpl.
  destruct (parse_step st s) as [st'|e'] eqn:Es; simpl; [|eauto].
  destruct Hin as [->|Hin]; [|apply IH; exact Hin].
  unfold parse_step in Es. rewrite Hbad in Es. discriminate.
Qed.

Lemma verify_parse_error (BOT_TOKEN payload seg : string) (e : exn) :
  In seg (split "&" payload) -> unpack_pair seg = Raise e ->
  verify_telegram_init_data BOT_TOKEN payload = false.
Proof.
  intros Hin Hbad. unfold verify_telegram_init_data, verify_body.
  destruct (parse_loop_raise _ _ _ Hin Hbad ([], None)) as [e' ->].
  reflexivity.
Qed.

(** C2, as stated, at the segment [user=a=b]: split on the first [=] it
    is the pair [(user, a=b)], but the unpacking raises, and the payload
    carrying it with the matching signature is rejected. *)
Lemma unpack_pair_value_with_eq_counterexample :
  spec_split_first "user=a=b" = Some ("user", "a=b") /\
  unpack_pair "user=a=b" = Raise ValueError /\
  computed_hash demo_token "user=a=b"
  = "af9c6f6f60fa6af85fdf128e41d117aab73afdb12c55e5a5b02cb937ab8d8f4f" /\
  verify_telegram_init_data demo_token
    "user=a=b&hash=af9c6f6f60fa6af85fdf128e41d117aab73afdb12c55e5a5b02cb937ab8d8f4f"
  = false.
Proof. vm_compute. repeat split; reflexivity. Qed.

(** C2, amended: the payload is split on [&] and each segment on every
    [=]; a segment is a pair exactly when it holds one [=].  A segment
    whose value holds a further [=] is a parse error, like a segment
    without [=], and any segment that is a parse error makes the
    verification return false instead of raising. *)
Theorem unpack_pair_needs_one_eq :
  forall seg,
    match spec_split_first seg with
    | Some (k, v) =>
        unpack_pair seg = if contains "=" v then Raise ValueError else Return (k, v)
    | None => unpack_pair seg = Raise ValueError
    end /\
    (forall BOT_TOKEN payload e,
        In seg (split "&" payload) -> unpack_pair seg = Raise e ->
        verify_telegram_init_data BOT_TOKEN payload = false).
Proof.
  intros seg. split.
  - destruct (spec_split_first seg) as [[k v]|] eqn:E.
    + destruct (spec_split_first_some _ _ _ E) as [-> Hk].
      destruct (contains "=" v) eqn:Hv.
      * apply unpack_pair_second_eq; assumption.
      * apply unpack_pair_plain; assumption.
    + apply unpack_pair_no_eq. apply spec_split_first_none. exact E.
  - intros BOT_TOKEN payload e Hin Hbad.
    apply (verify_parse_error BOT_TOKEN payload seg e Hin Hbad).
Qed.

Lemma unpack_pair_needs_one_eq_witness :
  In "a=b=c" (split "&" "x=1&a=b=c&hash=ff") /\
  unpack_pair "a=b=c" = Raise ValueError /\
  verify_telegram_init_data demo_token "x=1&a=b=c&hash=ff" = false.
Proof.
  split; [right; left; reflexivity|]. split; [reflexivity|].
  apply (proj2 (unpack_pair_needs_one_eq "a=b=c") demo_token
               "x=1&a=b=c&hash=ff" ValueError).
  - right. left. reflexivity.
  - reflexivity.
Defined.

(** ** An empty hash value *)

Lemma parse_step_keeps_hash (seg : string)
    (st st' : list (string * string) * option string) :
  is_hash_segment seg = false -> parse_step st seg = Return st' ->
  snd st' = snd st.
Proof.
  unfold is_hash_segment, parse_step, bind.
  destruct (unpack_pair seg) as [[k v]|e]; [|discriminate].
  intros ->. intros H. inversion H. reflexivity.
Qed.

Lemma parse_loop_keeps_hash (segs : list string) :
  no_hash_segment segs = true ->
  forall st st', parse_loop segs st = Return st' -> snd st' = snd st.
Proof.
  unfold no_hash_segment.
  induction segs as [|seg segs IH]; simpl; intros Hno st st' H.
  - inversion H. reflexivity.
  - apply andb_prop in Hno. destruct Hno as [Hseg Hsegs].
    apply negb_true_iff in Hseg.
    destruct (parse_step st seg) as [st1|e] eqn:E; simpl in H; [|discriminate].
    rewrite (IH Hsegs st1 st' H).
    apply (parse_step_keeps_hash seg st st1 Hseg E).
Qed.

(** C9, as stated, at a payload with two [hash] pairs: it holds the
    segment [hash=], yet the later pair is the one compared and the
    payload verifies. *)
Lemma verify_earlier_empty_hash_counterexample :
  In "hash=" (split "&"
    "hash=&hash=c7d46ce391941b3e8864c8c66cdb4f7fdff7f15544151cccb35b4a61ebe0d30b") /\
  verify_telegram_init_data demo_token
    "hash=&hash=c7d46ce391941b3e8864c8c66cdb4f7fdff7f15544151cccb35b4a61ebe0d30b"
  = true.
Proof. vm_compute. split; [left|]; reflexivity. Qed.

(** C9, amended: when the last [hash] pair of the payload is [hash=]
    (no [hash] pair follows it), the verification returns false without
    raising and without computing a comparison, exactly as it does when
    no segment is a [hash] pair at all. *)
Theorem verify_rejects_empty_last_hash :
  forall BOT_TOKEN payload,
    (forall pre post,
        split "&" payload = (pre ++ "hash=" :: post)%list ->
        no_hash_segment post = true ->
        verify_telegram_init_data BOT_TOKEN payload = false /\
        (forall st, parse_loop (split "&" payload) ([], None) = Return st ->
                    snd st = Some EmptyString)) /\
    (no_hash_segment (split "&" payload) = true ->
     verify_telegram_init_data BOT_TOKEN payload = false).
Proof.
  intros BOT_TOKEN payload. split.
  - intros pre post Hsplit Hno.
    assert (Hst : forall st, parse_loop (split "&" payload) ([], None) = Return st ->
                             snd st = Some EmptyString).
    { intros st. rewrite Hsplit, parse_loop_app.
      destruct (parse_loop pre ([], None)) as [st1|e]; simpl; [|discriminate].
      intros H. apply (parse_loop_keeps_hash post Hno) in H. exact H. }
    split; [|exact Hst].
    unfold verify_telegram_init_data, verify_body, bind.
    destruct (parse_loop (split "&" payload) ([], None)) as [[dp hv]|e];
      [|reflexivity].
    specialize (Hst (dp, hv) eq_refl). cbn [snd] in Hst. subst hv. reflexivity.
  - intros Hno. unfold verify_telegram_init_data, verify_body, bind.
    destruct (parse_loop (split "&" payload) ([], None)) as [[dp hv]|e] eqn:E;
      [|reflexivity].
    apply (parse_loop_keeps_hash _ Hno) in E. cbn [snd] in E. subst hv. reflexivity.
Qed.

Lemma verify_rejects_empty_last_hash_witness :
  split "&" "hash=ff&user=bob&hash=&auth_date=1"
  = (["hash=ff"; "user=bob"] ++ "hash=" :: ["auth_date=1"])%list /\
  no_hash_segment ["auth_date=1"] = true /\
  verify_telegram_init_data demo_token "hash=ff&user=bob&hash=&auth_date=1" = false.
Proof.
  split; [reflexivity|]. split; [reflexivity|].
  apply (proj1 (proj1 (verify_rejects_empty_last_hash demo_token
                         "hash=ff&user=bob&hash=&auth_date=1")
                      ["hash=ff"; "user=bob"] ["auth_date=1"]
                      eq_refl eq_refl)).
Defined.

(** ** Payloads built from entries *)

Lemma format_pair_eq (k v : string) : format_pair (k, v) = k ++ String "=" v.
Proof. reflexivity. Qed.

Lemma plain_iff (s : string) :
  plain s = true <-> contains "&" s = false /\ contains "=" s = false.
Proof.
  unfold plain. rewrite andb_true_iff, !negb_true_iff. reflexivity.
Qed.

Lemma format_pair_no_amp (e : string * string) :
  plain_entry e = true -> contains "&" (format_pair e) = false.
Proof.
  destruct e as [k v]. unfold plain_entry. simpl fst. simpl snd.
  rewrite andb_true_iff, !plain_iff. intros [[Hk _] [Hv _]].
  rewrite format_pair_eq, contains_app. simpl. rewrite Hk, Hv. reflexivity.
Qed.

Lemma unpack_pair_entry (e : string * string) :
  plain_entry e = true -> unpack_pair (format_pair e) = Return e.
Proof.
  destruct e as [k v]. unfold plain_entry. simpl fst. simpl snd.
  rewrite andb_true_iff, !plain_iff. intros [[_ Hk] [_ Hv]].
  rewrite format_pair_eq. apply unpack_pair_plain; assumption.
Qed.

Lemma split_payload (entries : list (string * string)) :
  entries <> [] -> forallb plain_entry entries = true ->
  split "&" (payload_of entries) = map format_pair entries.
Proof.
  intros Hne Hplain. unfold payload_of.
  rewrite split_join by (destruct entries; [contradiction|discriminate]).
  clear Hne. induction entries as [|e entries IH]; [reflexivity|].
  simpl in Hplain. apply andb_prop in Hplain. destruct Hplain as [He Hes].
  simpl. rewrite (split_without_sep _ _ (format_pair_no_amp e He)).
  rewrite (IH Hes). reflexivity.
Qed.

Lemma parse_loop_entries (entries : list (string * string)) :
  forallb plain_entry entries = true ->
  forall dp h,
    parse_loop (map format_pair entries) (dp, h)
    = Return ((dp ++ fields_of entries)%list, hash_of entries h).
Proof.
  induction entries as [|e entries IH]; intros Hplain dp h.
  - simpl. rewrite app_nil_r. reflexivity.
  - simpl in Hplain. apply andb_prop in Hplain. destruct Hplain as [He Hes].
    cbn [map parse_loop]. unfold parse_step.
    rewrite (unpack_pair_entry e He). destruct e as [k v].
    cbn [bind fst snd].
    assert (Ef : fields_of ((k, v) :: entries)
                 = if String.eqb k "hash" then fields_of entries
                   else (k, v) :: fields_of entries).
    { unfold fields_of. cbn [filter fst]. destruct (String.eqb k "hash"); reflexivity. }
    assert (Eh : hash_of ((k, v) :: entries) h
                 = hash_of entries (if String.eqb k "hash" then Some v else h)).
    { reflexivity. }
    rewrite Ef, Eh.
    destruct (String.eqb k "hash"); cbn [bind]; rewrite (IH Hes); [reflexivity|].
    rewrite <- app_assoc. reflexivity.
Qed.

Lemma parse_payload (entries : list (string * string)) :
  entries <> [] -> forallb plain_entry entries = true ->
  parse_loop (split "&" (payload_of entries)) ([], None)
  = Return (fields_of entries, hash_of entries None).
Proof.
  intros Hne Hplain. rewrite (split_payload entries Hne Hplain).
  apply (parse_loop_entries entries Hplain [] None).
Qed.

Lemma payload_segment (entries : list (string * string))
    (e : string * string) (seg : string) :
  In e entries -> In seg (split "&" (format_pair e)) ->
  In seg (split "&" (payload_of entries)).
Proof.
  intros He Hseg. unfold payload_of.
  rewrite split_join by (destruct entries; [contradiction|discriminate]).
  apply in_flat_map. exists (format_pair e). split; [|exact Hseg].
  apply in_map. exact He.
Qed.

(** ** What the verification returns once the payload is parsed *)

Lemma verify_of_parse (BOT_TOKEN payload h : string) (dp : list (string * string)) :
  parse_loop (split "&" payload) ([], None) = Return (dp, Some h) ->
  verify_telegram_init_data BOT_TOKEN payload
  = match h with
    | EmptyString => false
    | _ => String.eqb (computed_hash BOT_TOKEN (data_check_string dp)) h
    end.
Proof.
  intros H. unfold verify_telegram_init_data, verify_body, bind. rewrite H.
  destruct h; reflexivity.
Qed.

(** ** Fields and hash of a signed payload *)

Lemma plain_field_entry (p : string * string) :
  plain_field p = true -> plain_entry p = true /\ String.eqb (fst p) "hash" = false.
Proof.
  unfold plain_field, plain_entry. rewrite !andb_true_iff, negb_true_iff.
  intros [[Hk Hv] Hh]. auto.
Qed.

Lemma fields_of_fields (fields : list (string * string)) :
  forallb plain_field fields = true -> fields_of fields = fields.
Proof.
  induction fields as [|p fields IH]; simpl; intros H; [reflexivity|].
  apply andb_prop in H. destruct H as [Hp Hf].
  destruct (plain_field_entry p Hp) as [_ ->]. simpl. rewrite (IH Hf). reflexivity.
Qed.

Lemma hash_of_fields (fields : list (string * string)) :
  forallb plain_field fields = true -> forall h0, hash_of fields h0 = h0.
Proof.
  induction fields as [|p fields IH]; intros H h0; [reflexivity|].
  simpl in H. apply andb_prop in H. destruct H as [Hp Hf].
  unfold hash_of. cbn [fold_left].
  destruct (plain_field_entry p Hp) as [_ ->]. apply (IH Hf).
Qed.

Lemma forallb_firstn_skipn {A : Type} (f : A -> bool) (n : nat) (l : list A) :
  forallb f l = true ->
  forallb f (firstn n l) = true /\ forallb f (skipn n l) = true.
Proof.
  intros H. rewrite <- (firstn_skipn n l), forallb_app in H.
  apply andb_prop in H. exact H.
Qed.

Lemma with_hash_parts (n : nat) (h : string) (fields : list (string * string)) :
  forallb plain_field fields = true ->
  fields_of (with_hash n h fields) = fields /\
  hash_of (with_hash n h fields) None = Some h /\
  with_hash n h fields <> [] /\
  (plain h = true -> forallb plain_entry (with_hash n h fields) = true).
Proof.
  intros H. destruct (forallb_firstn_skipn plain_field n fields H) as [H1 H2].
  unfold with_hash. split; [|split; [|split]].
  - unfold fields_of. rewrite filter_app. cbn [filter fst]. 
    change (String.eqb "hash" "hash") with true. cbn [negb].
    fold (fields_of (firstn n fields)). fold (fields_of (skipn n fields)).
    rewrite (fields_of_fields _ H1), (fields_of_fields _ H2).
    apply firstn_skipn.
  - unfold hash_of. rewrite fold_left_app. cbn [fold_left fst snd].
    change (String.eqb "hash" "hash") with true. cbv iota.
    apply (hash_of_fields _ H2).
  - destruct (firstn n fields); discriminate.
  - intros Hh. rewrite forallb_app. cbn [forallb].
    assert (Hall : forall l, forallb plain_field l = true ->
                             forallb plain_entry l = true).
    { induction l as [|p l IH]; simpl; intros Hl; [reflexivity|].
      apply andb_prop in Hl. destruct Hl as [Hp Hl].
      destruct (plain_field_entry p Hp) as [-> _]. apply (IH Hl). }
    rewrite (Hall _ H1), (Hall _ H2).
    unfold plain_entry. cbn [fst snd]. rewrite Hh. reflexivity.
Qed.

(** ** The hexadecimal digest *)

Lemma hex_digit_plain (n : Z) :
  Ascii.eqb (hex_digit n) "&" = false /\ Ascii.eqb (hex_digit n) "=" = false.
Proof.
  unfold hex_digit.
  assert (H : forall k, Ascii.eqb (nth k hex_digits "0"%char) "&" = false /\
                        Ascii.eqb (nth k hex_digits "0"%char) "=" = false).
  { intros k. do 17 (destruct k as [|k]; [split; reflexivity|]).
    simpl. destruct k; split; reflexivity. }
  apply H.
Qed.

Lemma hexdigest_plain (bs : list byte) : plain (hexdigest bs) = true.
Proof.
  apply plain_iff. induction bs as [|b bs [IH1 IH2]]; [split; reflexivity|].
  cbn [hexdigest contains].
  destruct (hex_digit_plain (Z_of_byte b / 16)) as [-> ->].
  destruct (hex_digit_plain (Z_of_byte b mod 16)) as [-> ->].
  rewrite IH1, IH2. split; reflexivity.
Qed.

Lemma hexdigest_length (bs : list byte) :
  String.length (hexdigest bs) = (2 * length bs)%nat.
Proof.
  induction bs as [|b bs IH]; [reflexivity|].
  cbn [hexdigest String.length length]. rewrite IH. lia.
Qed.

Lemma be_bytes_length (n : nat) (x : Z) : length (Sha256.be_bytes n x) = n.
Proof.
  unfold Sha256.be_bytes. rewrite length_map, length_rev, length_seq. reflexivity.
Qed.

Lemma sha256_digest_length (msg : list byte) : length (Sha256.digest msg) = 32%nat.
Proof.
  unfold Sha256.digest, Sha256.state_bytes. cbn [flat_map].
  rewrite !length_app, !be_bytes_length. reflexivity.
Qed.

Lemma hmac_digest_length (key msg : list byte) : length (Hmac.digest key msg) = 32%nat.
Proof. unfold Hmac.digest. apply sha256_digest_length. Qed.

Lemma computed_hash_length (BOT_TOKEN check : string) :
  String.length (computed_hash BOT_TOKEN check) = 64%nat.
Proof.
  unfold computed_hash. rewrite hexdigest_length, hmac_digest_length. reflexivity.
Qed.

Lemma computed_hash_plain (BOT_TOKEN check : string) :
  plain (computed_hash BOT_TOKEN check) = true.
Proof. unfold computed_hash. apply hexdigest_plain. Qed.

(** ** Changing one character *)

Lemma string_length_append (a b : string) :
  String.length (a ++ b) = (String.length a + String.length b)%nat.
Proof.
  induction a as [|x a IH]; simpl; [reflexivity|]. rewrite IH. reflexivity.
Qed.

Lemma set_char_decompose (i : nat) (c : ascii) (s : string) :
  (i < String.length s)%nat ->
  exists p a q,
    s = p ++ String a q /\ String.get i s = Some a /\
    set_char i c s = p ++ String c q.
Proof.
  revert i. induction s as [|x s IH]; intros i Hi; simpl in Hi; [lia|].
  destruct i as [|i].
  - exists EmptyString, x, s. repeat split.
  - destruct (IH i ltac:(lia)) as (p & a & q & Es & Eg & Ec).
    exists (String x p), a, q. simpl. rewrite Ec, <- Es. repeat split. exact Eg.
Qed.

Lemma append_char_inj (p q : string) (a c : ascii) :
  p ++ String a q = p ++ String c q -> a = c.
Proof.
  induction p as [|x p IH]; simpl; intros H; inversion H; auto.
Qed.

Lemma plain_char_split (p q : string) (a : ascii) :
  plain (p ++ String a q) = true -> plain p = true /\ plain q = true.
Proof.
  rewrite !plain_iff, !contains_app. cbn [contains].
  rewrite !orb_false_iff. intros [(Hp & _ & Hq) (Hp' & _ & Hq')]. auto.
Qed.

Lemma plain_char_join (p q : string) (c : ascii) :
  plain p = true -> plain q = true -> c <> "&"%char -> c <> "="%char ->
  plain (p ++ String c q) = true.
Proof.
  rewrite !plain_iff, !contains_app. cbn [contains].
  intros [Hp Hp'] [Hq Hq'] Hc Hc'.
  apply Ascii.eqb_neq in Hc, Hc'. rewrite Hp, Hp', Hq, Hq', Hc, Hc'. auto.
Qed.

(** A value that was plain and had one character turned into [&] or [=]
    leaves a segment the unpacking rejects. *)
Lemma broken_value_segment (k p q : string) (c : ascii) :
  plain k = true -> plain p = true -> plain q = true ->
  c = "&"%char \/ c = "="%char ->
  exists seg, In seg (split "&" (format_pair (k, p ++ String c q))) /\
              unpack_pair seg = Raise ValueError.
Proof.
  rewrite !plain_iff. intros [Hk Hk'] [Hp Hp'] [Hq Hq'] [->| ->];
    rewrite format_pair_eq.
  - exists q. split.
    + change (k ++ String "=" (p ++ String "&" q))
        with (k ++ (String "=" p) ++ String "&" q).
      rewrite <- append_assoc, split_app, (split_without_sep _ _ Hq).
      apply in_or_app. right. left. reflexivity.
    + apply unpack_pair_no_eq. exact Hq'.
  - exists (k ++ String "=" (p ++ String "=" q)). split.
    + rewrite split_without_sep; [left; reflexivity|].
      rewrite contains_app. cbn [contains]. rewrite contains_app. cbn [contains].
      rewrite Hk, Hp, Hq. reflexivity.
    + apply unpack_pair_second_eq; [exact Hk'|].
      rewrite contains_app. cbn [contains]. rewrite Ascii.eqb_refl.
      apply orb_true_r.
Qed.

(** ** The check string of two lists of the same shape *)

Lemma insert_by_key_shape (p p' : string * string) (l l' : list (string * string)) :
  same_shape p p' -> Forall2 same_shape l l' ->
  Forall2 same_shape (insert_by_key p l) (insert_by_key p' l').
Proof.
  intros Hp H. induction H as [|q q' l l' Hq H IH]; simpl.
  - constructor; [exact Hp|constructor].
  - destruct Hp as [Hk Hl]. destruct Hq as [Hk' Hl']. rewrite <- Hk, <- Hk'.
    destruct (String.ltb (fst q) (fst p)).
    + constructor; [split; assumption|exact IH].
    + constructor; [split; assumption|]. constructor; [split; assumption|exact H].
Qed.

Lemma sort_by_key_shape (l l' : list (string * string)) :
  Forall2 same_shape l l' -> Forall2 same_shape (sort_by_key l) (sort_by_key l').
Proof.
  intros H. induction H as [|p p' l l' Hp H IH]; simpl; [constructor|].
  apply insert_by_key_shape; assumption.
Qed.

Lemma insert_by_key_inj (p p' : string * string) (l l' : list (string * string)) :
  same_shape p p' -> Forall2 same_shape l l' ->
  insert_by_key p l = insert_by_key p' l' -> p = p' /\ l = l'.
Proof.
  intros Hp H. induction H as [|q q' l l' Hq H IH]; simpl.
  - intros E. inversion E. auto.
  - destruct Hp as [Hk Hl]. destruct Hq as [Hk' Hl']. rewrite <- Hk, <- Hk'.
    destruct (String.ltb (fst q) (fst p)); intros E.
    + injection E as Eq Ei. destruct (IH Ei) as [-> ->]. rewrite Eq. auto.
    + injection E as Ep Eq El. rewrite Ep, Eq, El. auto.
Qed.

Lemma sort_by_key_inj (l l' : list (string * string)) :
  Forall2 same_shape l l' -> sort_by_key l = sort_by_key l' -> l = l'.
Proof.
  intros H. induction H as [|p p' l l' Hp H IH]; simpl; [reflexivity|].
  intros E.
  destruct (insert_by_key_inj p p' _ _ Hp (sort_by_key_shape l l' H) E) as [-> E'].
  rewrite (IH E'). reflexivity.
Qed.

Lemma format_pair_shape (p p' : string * string) :
  same_shape p p' ->
  String.length (format_pair p) = String.length (format_pair p') /\
  (format_pair p = format_pair p' -> p = p').
Proof.
  destruct p as [k v], p' as [k' v']. intros [Hk Hl]. simpl in Hk, Hl. subst k'.
  rewrite !format_pair_eq, !string_length_append. simpl. split; [lia|].
  intros E. destruct (append_inv_same_length k k _ _ eq_refl E) as [_ E'].
  inversion E'. reflexivity.
Qed.

Lemma join_lines_inj (l l' : list (string * string)) :
  Forall2 same_shape l l' ->
  join (String LF EmptyString) (map format_pair l)
  = join (String LF EmptyString) (map format_pair l') ->
  l = l'.
Proof.
  intros H. induction H as [|p p' l l' Hp H IH]; [reflexivity|].
  destruct (format_pair_shape p p' Hp) as [Hlen Hinj].
  destruct H as [|q q' l l' Hq H].
  - simpl. intros E. rewrite (Hinj E). reflexivity.
  - change (format_pair p ++ String LF (join (String LF EmptyString)
                                             (map format_pair (q :: l)))
            = format_pair p' ++ String LF (join (String LF EmptyString)
                                                (map format_pair (q' :: l')))
            -> p :: q :: l = p' :: q' :: l').
    intros E. destruct (append_inv_same_length _ _ _ _ Hlen E) as [E1 E2].
    inversion E2 as [E3]. rewrite (Hinj E1), (IH E3). reflexivity.
Qed.

Lemma data_check_string_inj (l l' : list (string * string)) :
  Forall2 same_shape l l' -> data_check_string l = data_check_string l' -> l = l'.
Proof.
  intros H E. apply (sort_by_key_inj l l' H).
  apply (join_lines_inj _ _ (sort_by_key_shape l l' H) E).
Qed.

Lemma same_shape_refl (l : list (string * string)) : Forall2 same_shape l l.
Proof. induction l; constructor; [split; reflexivity|assumption]. Qed.

Lemma in_with_hash (n : nat) (h : string) (fields : list (string * string))
    (e : string * string) :
  In e fields -> In e (with_hash n h fields).
Proof.
  intros H. rewrite <- (firstn_skipn n fields) in H. unfold with_hash.
  apply in_app_or in H. apply in_or_app. destruct H; [left|right; right]; assumption.
Qed.

Lemma hash_in_with_hash (n : nat) (h : string) (fields : list (string * string)) :
  In ("hash", h) (with_hash n h fields).
Proof. unfold with_hash. apply in_or_app. right. left. reflexivity. Qed.

(** The verification of a payload whose fields are plain and whose hash
    value is any plain string. *)
Lemma verify_with_hash (BOT_TOKEN h : string) (n : nat)
    (fields : list (string * string)) :
  forallb plain_field fields = true -> plain h = true ->
  verify_telegram_init_data BOT_TOKEN (payload_of (with_hash n h fields))
  = match h with
    | EmptyString => false
    | _ => String.eqb (signature BOT_TOKEN fields) h
    end.
Proof.
  intros Hf Hh.
  destruct (with_hash_parts n h fields Hf) as (E1 & E2 & Hne & Hplain).
  pose proof (parse_payload _ Hne (Hplain Hh)) as Hparse.
  rewrite E1, E2 in Hparse.
  rewrite (verify_of_parse BOT_TOKEN _ h fields Hparse). reflexivity.
Qed.

(** A payload with an entry whose value had one character turned into
    [&] or [=] is rejected. *)
Lemma verify_broken_entry (BOT_TOKEN k p q : string) (c : ascii)
    (entries : list (string * string)) :
  plain k = true -> plain p = true -> plain q = true ->
  c = "&"%char \/ c = "="%char ->
  In (k, p ++ String c q) entries ->
  verify_telegram_init_data BOT_TOKEN (payload_of entries) = false.
Proof.
  intros Hk Hp Hq Hc Hin.
  destruct (broken_value_segment k p q c Hk Hp Hq Hc) as (seg & Hseg & Hbad).
  apply (verify_parse_error BOT_TOKEN _ seg ValueError); [|exact Hbad].
  apply (payload_segment entries (k, p ++ String c q) seg Hin Hseg).
Qed.

Lemma special_char_dec (c : ascii) :
  {c = "&"%char \/ c = "="%char} + {c <> "&"%char /\ c <> "="%char}.
Proof.
  destruct (Ascii.eqb_spec c "&"); [left; auto|].
  destruct (Ascii.eqb_spec c "="); [left; auto|right; auto].
Qed.




Example verify_demo_payload :
  payload_of (with_hash 1 (signature demo_token demo_fields) demo_fields)
  = "user=bob&hash=03be38ff18898a01e422ae1a42de4e546077264effe666f7f1fc81ed94b1306a&auth_date=1"
  /\ verify_telegram_init_data demo_token
       "user=bob&hash=03be38ff18898a01e422ae1a42de4e546077264effe666f7f1fc81ed94b1306a&auth_date=1"
     = true
  /\ verify_telegram_init_data demo_token
       "user=bob&hash=03be38ff18898a01e422ae1a42de4e546077264effe666f7f1fc81ed94b1306a&auth_date=2"
     = false
  /\ verify_telegram_init_data demo_token
       "user=bob&hash=13be38ff18898a01e422ae1a42de4e546077264effe666f7f1fc81ed94b1306a&auth_date=1"
     = false.
Proof. vm_compute. repeat split; reflexivity. Qed.

(* ================================================================== *)
(** * Part III: further properties of the service layer *)
(* ================================================================== *)

(** ** Accepted payloads, exactly *)

Lemma join_cons_char (sep : string) (c : ascii) (seg : string) (segs : list string) :
  join sep (String c seg :: segs) = String c (join sep (seg :: segs)).
Proof. destruct segs; reflexivity. Qed.

Lemma join_split (sep : ascii) (s : string) :
  join (String sep EmptyString) (split sep s) = s.
Proof.
  induction s as [|c s IH]; [reflexivity|].
  cbn [split]. destruct (Ascii.eqb_spec c sep) as [->|Hc].
  - destruct (split sep s) as [|seg segs] eqn:Es; [destruct (split_nonempty _ _ Es)|].
    change (join (String sep EmptyString) (EmptyString :: seg :: segs))
      with (String sep (join (String sep EmptyString) (seg :: segs))).
    rewrite IH. reflexivity.
  - destruct (split sep s) as [|seg segs] eqn:Es; [destruct (split_nonempty _ _ Es)|].
    rewrite join_cons_char, IH. reflexivity.
Qed.

Lemma split_segment_no_sep (sep : ascii) (s seg : string) :
  In seg (split sep s) -> contains sep seg = false.
Proof.
  revert seg. induction s as [|c s IH]; intros seg; cbn [split].
  - intros [<-|[]]. reflexivity.
  - destruct (Ascii.eqb c sep) eqn:Ec.
    + intros [<-|H]; [reflexivity|apply IH; exact H].
    + destruct (split sep s) as [|seg0 segs] eqn:Es; [destruct (split_nonempty _ _ Es)|].
      intros [<-|H].
      * cbn [contains]. rewrite Ec. apply IH. left. reflexivity.
      * apply IH. right. exact H.
Qed.

Lemma unpack_pair_inv (seg k v : string) :
  unpack_pair seg = Return (k, v) ->
  seg = format_pair (k, v) /\ contains "=" k = false /\ contains "=" v = false.
Proof.
  unfold unpack_pair.
  destruct (split "=" seg) as [|a [|b [|c rest]]] eqn:Es; try discriminate.
  intros H. inversion H; subst. split; [|split].
  - rewrite <- (join_split "=" seg), Es. reflexivity.
  - apply (split_segment_no_sep "=" seg). rewrite Es. left. reflexivity.
  - apply (split_segment_no_sep "=" seg). rewrite Es. right. left. reflexivity.
Qed.

Lemma parse_loop_inv (segs : list string) :
  forall dp h dp' h',
    parse_loop segs (dp, h) = Return (dp', h') ->
    exists entries,
      segs = map format_pair entries /\
      Forall (fun e => contains "=" (fst e) = false /\ contains "=" (snd e) = false)
             entries /\
      dp' = (dp ++ fields_of entries)%list /\ h' = hash_of entries h.
Proof.
  induction segs as [|seg segs IH]; intros dp h dp' h' H.
  - inversion H; subst. exists []. rewrite app_nil_r. repeat split. constructor.
  - cbn [parse_loop] in H. unfold parse_step in H.
    destruct (unpack_pair seg) as [[k v]|e] eqn:Eu; [|discriminate H].
    destruct (unpack_pair_inv seg k v Eu) as (Eseg & Hk & Hv).
    cbn [bind fst snd] in H.
    assert (Ef : fields_of ((k, v) :: nil) = if String.eqb k "hash" then [] else [(k, v)]).
    { unfold fields_of. cbn [filter fst]. destruct (String.eqb k "hash"); reflexivity. }
    destruct (String.eqb k "hash") eqn:Ek; cbn [bind] in H;
      destruct (IH _ _ _ _ H) as (entries & Es & Hall & Edp & Eh);
      exists ((k, v) :: entries); (split; [cbn [map]; rewrite Eseg, Es; reflexivity|]);
      (split; [constructor; [split; assumption|exact Hall]|]).
    + unfold fields_of, hash_of. cbn [filter fold_left fst snd]. rewrite Ek.
      cbn [negb]. split; assumption.
    + unfold fields_of, hash_of. cbn [filter fold_left fst snd]. rewrite Ek.
      cbn [negb]. split; [|exact Eh].
      rewrite Edp, <- app_assoc. reflexivity.
Qed.

Lemma parsed_entries_plain (payload : string) (entries : list (string * string)) :
  split "&" payload = map format_pair entries ->
  Forall (fun e => contains "=" (fst e) = false /\ contains "=" (snd e) = false)
         entries ->
  forallb plain_entry entries = true.
Proof.
  intros Es Hall. apply forallb_forall. intros [k v] Hin.
  rewrite Forall_forall in Hall. destruct (Hall _ Hin) as [Hk Hv].
  cbn [fst snd] in Hk, Hv.
  assert (Hamp : contains "&" (format_pair (k, v)) = false).
  { apply (split_segment_no_sep "&" payload). rewrite Es.
    apply in_map. exact Hin. }
  rewrite format_pair_eq, contains_app in Hamp. cbn [contains] in Hamp.
  apply orb_false_iff in Hamp. destruct Hamp as [Hk' Hv'].
  cbn [Ascii.eqb] in Hv'. simpl in Hv'.
  unfold plain_entry, plain. cbn [fst snd]. rewrite Hk, Hv, Hk', Hv'. reflexivity.
Qed.

(** X1: the verification accepts a payload exactly when the payload is
    a non-empty list of [key=value] entries joined with [&], no key or
    value holding [&] or [=], whose last [hash] entry carries the
    signature of the other entries. *)
Theorem verify_accepts_iff :
  forall BOT_TOKEN payload,
    verify_telegram_init_data BOT_TOKEN payload = true <->
    exists entries,
      entries <> [] /\ forallb plain_entry entries = true /\
      payload = payload_of entries /\
      hash_of entries None = Some (signature BOT_TOKEN (fields_of entries)).
Proof.
  intros BOT_TOKEN payload. split.
  - unfold verify_telegram_init_data, verify_body, bind.
    destruct (parse_loop (split "&" payload) ([], None)) as [[dp hv]|e] eqn:Ep;
      [|discriminate].
    destruct hv as [h|]; [|discriminate]. destruct h as [|a h]; [discriminate|].
    intros Hv. apply String.eqb_eq in Hv.
    destruct (parse_loop_inv _ _ _ _ _ Ep) as (entries & Es & Hall & Edp & Eh).
    cbn [app] in Edp. exists entries. split; [|split; [|split]].
    + intros ->. apply (split_nonempty "&" payload). exact Es.
    + apply (parsed_entries_plain payload entries Es Hall).
    + rewrite <- (join_split "&" payload), Es. reflexivity.
    + rewrite <- Eh, <- Edp. unfold signature. rewrite Hv. reflexivity.
  - intros (entries & Hne & Hplain & -> & Hh).
    pose proof (parse_payload entries Hne Hplain) as Hp. rewrite Hh in Hp.
    rewrite (verify_of_parse BOT_TOKEN _ _ _ Hp).
    pose proof (computed_hash_length BOT_TOKEN (data_check_string (fields_of entries)))
      as Hlen.
    fold (signature BOT_TOKEN (fields_of entries)) in Hlen |- *.
    destruct (signature BOT_TOKEN (fields_of entries)); [discriminate Hlen|].
    apply String.eqb_refl.
Qed.

Lemma verify_accepts_iff_witness :
  verify_telegram_init_data demo_token (payload_of demo_entries) = true.
Proof.
  apply (proj2 (verify_accepts_iff demo_token (payload_of demo_entries))).
  exists demo_entries. split; [discriminate|]. split; [reflexivity|].
  split; [reflexivity|]. vm_compute. reflexivity.
Defined.

(** ** Empty segments *)

(** X2: a payload with an empty segment (the empty payload, a leading or
    trailing [&], two [&] in a row) is rejected, whatever else it holds. *)
Theorem verify_rejects_empty_segment :
  forall BOT_TOKEN a b,
    verify_telegram_init_data BOT_TOKEN "" = false /\
    verify_telegram_init_data BOT_TOKEN (String "&" b) = false /\
    verify_telegram_init_data BOT_TOKEN (a ++ "&") = false /\
    verify_telegram_init_data BOT_TOKEN (a ++ "&&" ++ b) = false.
Proof.
  intros BOT_TOKEN a b.
  assert (H : forall payload, In EmptyString (split "&" payload) ->
                              verify_telegram_init_data BOT_TOKEN payload = false).
  { intros payload Hin.
    apply (verify_parse_error BOT_TOKEN payload EmptyString ValueError Hin).
    reflexivity. }
  split; [|split; [|split]]; apply H.
  - left. reflexivity.
  - left. reflexivity.
  - change (a ++ "&") with (a ++ String "&" EmptyString).
    rewrite split_app. apply in_or_app. right. left. reflexivity.
  - change (a ++ "&&" ++ b) with (a ++ String "&" (String "&" b)).
    rewrite split_app. apply in_or_app. right. left. reflexivity.
Qed.

(** ** The order of the fields *)

Lemma ascii_compare_lt_trans (a b c : ascii) :
  Ascii.compare a b = Lt -> Ascii.compare b c = Lt -> Ascii.compare a c = Lt.
Proof.
  unfold Ascii.compare. rewrite !N.compare_lt_iff. apply N.lt_trans.
Qed.

Lemma string_compare_lt_trans (s1 : string) :
  forall s2 s3,
    String.compare s1 s2 = Lt -> String.compare s2 s3 = Lt ->
    String.compare s1 s3 = Lt.
Proof.
  induction s1 as [|c1 s1 IH]; intros [|c2 s2] [|c3 s3]; simpl;
    try discriminate; try reflexivity.
  destruct (Ascii.compare c1 c2) eqn:E12; try discriminate;
    destruct (Ascii.compare c2 c3) eqn:E23; try discriminate; intros H1 H2.
  - apply Ascii.compare_eq_iff in E12, E23. subst.
    replace (Ascii.compare c3 c3) with Eq
      by (symmetry; unfold Ascii.compare; apply N.compare_refl).
    apply (IH s2 s3 H1 H2).
  - apply Ascii.compare_eq_iff in E12. subst. rewrite E23. reflexivity.
  - apply Ascii.compare_eq_iff in E23. subst. rewrite E12. reflexivity.
  - rewrite (ascii_compare_lt_trans _ _ _ E12 E23). reflexivity.
Qed.

Lemma string_ltb_trans (s1 s2 s3 : string) :
  String.ltb s1 s2 = true -> String.ltb s2 s3 = true -> String.ltb s1 s3 = true.
Proof.
  unfold String.ltb. intros H1 H2.
  destruct (String.compare s1 s2) eqn:E1; try discriminate.
  destruct (String.compare s2 s3) eqn:E2; try discriminate.
  rewrite (string_compare_lt_trans _ _ _ E1 E2). reflexivity.
Qed.

Lemma string_ltb_total (s1 s2 : string) :
  s1 <> s2 -> String.ltb s1 s2 = negb (String.ltb s2 s1).
Proof.
  intros Hne. unfold String.ltb. rewrite (String.compare_antisym s2 s1).
  destruct (String.compare s1 s2) eqn:E; try reflexivity.
  apply String.compare_eq_iff in E. contradiction.
Qed.

Lemma string_ltb_irrefl (s : string) : String.ltb s s = false.
Proof.
  unfold String.ltb. pose proof (String.compare_antisym s s) as H.
  destruct (String.compare s s); try reflexivity. discriminate H.
Qed.

Lemma insert_by_key_comm (p q : string * string) (l : list (string * string)) :
  fst p <> fst q ->
  insert_by_key p (insert_by_key q l) = insert_by_key q (insert_by_key p l).
Proof.
  intros Hne. induction l as [|a l IH]; cbn [insert_by_key].
  - rewrite (string_ltb_total (fst q) (fst p)) by congruence.
    destruct (String.ltb (fst p) (fst q)); reflexivity.
  - destruct (String.ltb (fst a) (fst q)) eqn:Eaq;
      destruct (String.ltb (fst a) (fst p)) eqn:Eap; cbn [insert_by_key];
      rewrite ?Eaq, ?Eap.
    + rewrite IH. reflexivity.
    + assert (Hpq : String.ltb (fst p) (fst q) = true).
      { destruct (String.eqb_spec (fst a) (fst p)) as [E|E].
        - rewrite <- E. exact Eaq.
        - rewrite (string_ltb_total _ _ E) in Eap. apply negb_false_iff in Eap.
          apply (string_ltb_trans _ _ _ Eap Eaq). }
      rewrite Hpq. cbn [insert_by_key]. rewrite ?Eaq. reflexivity.
    + assert (Hqp : String.ltb (fst q) (fst p) = true).
      { destruct (String.eqb_spec (fst a) (fst q)) as [E|E].
        - rewrite <- E. exact Eap.
        - rewrite (string_ltb_total _ _ E) in Eaq. apply negb_false_iff in Eaq.
          apply (string_ltb_trans _ _ _ Eaq Eap). }
      rewrite Hqp. cbn [insert_by_key]. rewrite ?Eap. reflexivity.
    + rewrite (string_ltb_total (fst q) (fst p)) by congruence.
      destruct (String.ltb (fst p) (fst q)); cbn [negb insert_by_key];
        rewrite ?Eaq, ?Eap; reflexivity.
Qed.

Lemma sort_by_key_permutation (l l' : list (string * string)) :
  Permutation l l' -> NoDup (map fst l) -> sort_by_key l = sort_by_key l'.
Proof.
  intros H. induction H as [|p l l' H IH|p q l|l1 l2 l3 H12 IH12 H23 IH23];
    intros Hnd.
  - reflexivity.
  - cbn [sort_by_key fold_right]. fold (sort_by_key l). fold (sort_by_key l').
    inversion Hnd; subst. rewrite IH by assumption. reflexivity.
  - cbn [sort_by_key fold_right]. fold (sort_by_key l).
    apply insert_by_key_comm.
    inversion Hnd as [|k ks Hk _]; subst. intros E. apply Hk. left.
    symmetry. exact E.
  - rewrite IH12 by exact Hnd. apply IH23.
    apply (Permutation_NoDup (Permutation_map fst H12) Hnd).
Qed.

(** X3: for fields with pairwise different keys, neither the order of
    the fields in the payload nor the place of the [hash] pair changes
    the verdict. *)
Theorem verify_field_order_irrelevant :
  forall BOT_TOKEN h n n' fields fields',
    forallb plain_field fields = true -> plain h = true ->
    NoDup (map fst fields) -> Permutation fields fields' ->
    data_check_string fields = data_check_string fields' /\
    verify_telegram_init_data BOT_TOKEN (payload_of (with_hash n h fields))
    = verify_telegram_init_data BOT_TOKEN (payload_of (with_hash n' h fields')).
Proof.
  intros BOT_TOKEN h n n' fields fields' Hf Hh Hnd Hperm.
  assert (Hf' : forallb plain_field fields' = true).
  { apply forallb_forall. intros e He. rewrite forallb_forall in Hf. apply Hf.
    apply (Permutation_in e (Permutation_sym Hperm) He). }
  assert (Hd : data_check_string fields = data_check_string fields').
  { unfold data_check_string.
    rewrite (sort_by_key_permutation fields fields' Hperm Hnd). reflexivity. }
  split; [exact Hd|].
  rewrite (verify_with_hash BOT_TOKEN h n fields Hf Hh).
  rewrite (verify_with_hash BOT_TOKEN h n' fields' Hf' Hh).
  unfold signature. rewrite Hd. reflexivity.
Qed.

Lemma verify_field_order_irrelevant_witness :
  verify_telegram_init_data demo_token
    (payload_of (with_hash 0 "ab" [("user", "bob"); ("auth_date", "1")]))
  = verify_telegram_init_data demo_token
      (payload_of (with_hash 2 "ab" [("auth_date", "1"); ("user", "bob")])).
Proof.
  apply (verify_field_order_irrelevant demo_token "ab" 0 2
           [("user", "bob"); ("auth_date", "1")]
           [("auth_date", "1"); ("user", "bob")]).
  - reflexivity.
  - reflexivity.
  - constructor; [intros [H|[]]; discriminate H|].
    constructor; [intros []|constructor].
  - apply perm_swap.
Defined.

(** ** The draw, for any weights and any random number *)

Lemma bisect_loop_range (a : list Q) (x : Q) (fuel : nat) :
  forall lo hi, (lo <= hi)%nat ->
    (lo <= Random.bisect_loop fuel a x lo hi <= hi)%nat.
Proof.
  induction fuel as [|fuel IH]; intros lo hi Hle; cbn [Random.bisect_loop]; [lia|].
  destruct (lo <? hi)%nat eqn:Elt; [|lia].
  apply Nat.ltb_lt in Elt. pose proof (half_between lo hi Elt) as Hmid.
  destruct (Qltb x (nth ((lo + hi) / 2) a 0%Q)).
  - specialize (IH lo ((lo + hi) / 2)%nat ltac:(lia)). lia.
  - specialize (IH ((lo + hi) / 2 + 1)%nat hi ltac:(lia)). lia.
Qed.

Lemma choices_total {A : Type} (u : Q) (population : list A) (weights : list Q) :
  length population = length weights -> weights <> [] ->
  ((sum_weights weights <= 0)%Q ->
   Random.choices u population weights = Raise ValueError) /\
  ((0 < sum_weights weights)%Q ->
   exists x, Random.choices u population weights = Return x /\ In x population).
Proof.
  intros Hlen Hne. unfold Random.choices.
  rewrite accumulate_length, <- Hlen, Nat.eqb_refl. cbn [negb]. cbv zeta.
  assert (Htotal : (last (Random.accumulate weights) 0 + 0 == sum_weights weights)%Q).
  { rewrite Qplus_0_r. apply accumulate_last. }
  unfold Qleb. split; intros H.
  - assert (E : Qltb 0%Q (last (Random.accumulate weights) 0%Q + 0)%Q = false).
    { apply Qltb_ge. rewrite Htotal. exact H. }
    rewrite E. reflexivity.
  - assert (E : Qltb 0%Q (last (Random.accumulate weights) 0%Q + 0)%Q = true).
    { apply Qltb_lt. rewrite Htotal. exact H. }
    rewrite E. cbn [negb].
    assert (Hn : (0 < length population)%nat).
    { rewrite Hlen. destruct weights; [contradiction|simpl; lia]. }
    pose proof (bisect_loop_range (Random.accumulate weights)
                  (u * (last (Random.accumulate weights) 0%Q + 0))%Q
                  (length population - 1 - 0) 0 (length population - 1) ltac:(lia))
      as Hres.
    fold (Random.bisect (Random.accumulate weights)
            (u * (last (Random.accumulate weights) 0%Q + 0))%Q
            0 (length population - 1)) in Hres.
    destruct (nth_error population _) as [x|] eqn:Ex.
    + exists x. split; [reflexivity|]. apply (nth_error_In _ _ Ex).
    + apply nth_error_None in Ex. lia.
Qed.

Lemma open_case_outcome (u : Q) (case_nfts : list CaseItem) :
  case_nfts <> [] ->
  ((total_weight case_nfts <= 0)%Q -> open_case u case_nfts = Raise ValueError) /\
  ((0 < total_weight case_nfts)%Q ->
   exists item, open_case u case_nfts = Return (Some item) /\ In item case_nfts).
Proof.
  intros Hne. rewrite total_weight_sum.
  assert (Hws : map chance case_nfts <> [])
    by (destruct case_nfts; [contradiction|discriminate]).
  destruct (choices_total u case_nfts (map chance case_nfts)
              (eq_sym (length_map chance case_nfts)) Hws) as [Hraise Hdraw].
  unfold open_case. destruct case_nfts as [|c cs]; [contradiction|].
  rewrite collect_eq. cbv beta iota zeta. split; intros H.
  - rewrite (Hraise H). reflexivity.
  - destruct (Hdraw H) as (x & -> & Hin). exists x. split; [reflexivity|exact Hin].
Qed.



(** ** Candidates with chance zero *)

Lemma accumulate_from_ge_nonneg (ws : list Q) :
  Forall (fun w => 0 <= w)%Q ws ->
  forall acc j, (j < length ws)%nat ->
    (acc <= nth j (Random.accumulate_from acc ws) 0)%Q.
Proof.
  induction 1 as [|w ws Hw Hws IH]; intros acc j Hj; simpl in *; [lia|].
  assert (Hacc : (acc <= acc + w)%Q).
  { rewrite <- (Qplus_0_r acc) at 1.
    apply Qplus_le_compat; [apply Qle_refl|exact Hw]. }
  destruct j as [|j]; [exact Hacc|].
  eapply Qle_trans; [exact Hacc|]. apply IH. lia.
Qed.

Lemma accumulate_from_mono_nonneg (ws : list Q) :
  Forall (fun w => 0 <= w)%Q ws ->
  forall acc i j, (i <= j < length ws)%nat ->
    (nth i (Random.accumulate_from acc ws) 0
     <= nth j (Random.accumulate_from acc ws) 0)%Q.
Proof.
  induction 1 as [|w ws Hw Hws IH]; intros acc i j Hij; simpl in *; [lia|].
  destruct i as [|i], j as [|j]; try lia.
  - apply Qle_refl.
  - apply accumulate_from_ge_nonneg; [exact Hws|lia].
  - apply IH. lia.
Qed.

Lemma accumulate_mono_nonneg (ws : list Q) :
  Forall (fun w => 0 <= w)%Q ws ->
  forall i j, (i <= j < length ws)%nat ->
    (nth i (Random.accumulate ws) 0 <= nth j (Random.accumulate ws) 0)%Q.
Proof.
  intros H i j Hij. destruct ws as [|w ws]; simpl in *; [lia|].
  inversion H as [|w' ws' Hw Hws]; subst.
  destruct i as [|i], j as [|j]; try lia.
  - apply Qle_refl.
  - apply accumulate_from_ge_nonneg; [exact Hws|lia].
  - apply accumulate_from_mono_nonneg; [exact Hws|lia].
Qed.

(** With running sums that never decrease, the index the binary search
    returns is the first whose running sum exceeds the draw point. *)
Lemma choices_index {A : Type} (u r : Q) (population : list A) (weights : list Q) :
  length population = length weights -> weights <> [] ->
  (forall i j, (i <= j < length weights)%nat ->
     (nth i (Random.accumulate weights) 0 <= nth j (Random.accumulate weights) 0)%Q) ->
  (r < sum_weights weights)%Q ->
  (u * sum_weights weights == r)%Q ->
  let i := Random.bisect (Random.accumulate weights)
             (u * (last (Random.accumulate weights) 0%Q + 0))%Q
             0 (length population - 1) in
  (i < length weights)%nat /\
  Qltb r (nth i (Random.accumulate weights) 0%Q) = true /\
  (forall j, (j < i)%nat -> Qltb r (nth j (Random.accumulate weights) 0%Q) = false).
Proof.
  intros Hlen Hne Hsorted Hr Hu.
  set (cum := Random.accumulate weights).
  set (n := length population).
  assert (Hcum : length cum = n)
    by (unfold cum, n; rewrite accumulate_length; auto).
  assert (Hn : (0 < n)%nat).
  { unfold n. rewrite Hlen. destruct weights; [contradiction|simpl; lia]. }
  assert (Htotal : (last cum 0 + 0 == sum_weights weights)%Q).
  { rewrite Qplus_0_r. apply accumulate_last. }
  set (x := (u * (last cum 0 + 0))%Q).
  assert (Hx : (x == r)%Q) by (unfold x; rewrite Htotal; exact Hu).
  assert (Hsame : forall c, Qltb x c = Qltb r c).
  { intros c. apply Qltb_compat; [exact Hx|reflexivity]. }
  assert (Hmono : forall i j, (i <= j < n - 1)%nat ->
            Qltb x (nth i cum 0%Q) = true -> Qltb x (nth j cum 0%Q) = true).
  { intros i j Hij Hi. apply Qltb_lt. apply Qltb_lt in Hi.
    eapply Qlt_le_trans; [exact Hi|].
    apply Hsorted. rewrite <- Hlen. fold n. lia. }
  destruct (bisect_loop_spec cum x (n - 1) Hmono (n - 1 - 0) 0 (n - 1))
    as (Hres & Hbelow & Habove); [lia|lia|].
  fold (Random.bisect cum x 0 (n - 1)) in Hres, Hbelow, Habove.
  cbv zeta. set (res := Random.bisect cum x 0 (n - 1)) in *.
  assert (Hlast : Qltb r (nth (n - 1) cum 0%Q) = true).
  { apply Qltb_lt. rewrite <- Hcum, <- last_is_nth.
    unfold cum. rewrite accumulate_last. exact Hr. }
  split; [rewrite <- Hlen; fold n; lia|]. split.
  - destruct (Nat.eq_dec res (n - 1)) as [->|Hne'].
    + exact Hlast.
    + rewrite <- Hsame. apply Habove. lia.
  - intros j Hj. rewrite <- Hsame.
    destruct (Qltb x (nth j cum 0%Q)) eqn:E; [|reflexivity].
    exfalso. apply (Hbelow j); [lia|exact E].
Qed.

Lemma sum_weights_firstn_succ (ws : list Q) :
  forall i, (i < length ws)%nat ->
    (sum_weights (firstn (S i) ws) == sum_weights (firstn i ws) + nth i ws 0)%Q.
Proof.
  induction ws as [|w ws IH]; intros i Hi; [simpl in Hi; lia|].
  destruct i as [|i].
  - unfold sum_weights. simpl. rewrite Qplus_0_r, Qplus_0_l. reflexivity.
  - simpl in Hi.
    change (sum_weights (firstn (S (S i)) (w :: ws)))
      with (w + sum_weights (firstn (S i) ws))%Q.
    change (sum_weights (firstn (S i) (w :: ws)))
      with (w + sum_weights (firstn i ws))%Q.
    change (nth (S i) (w :: ws) 0%Q) with (nth i ws 0%Q).
    rewrite IH by lia. rewrite Qplus_assoc. reflexivity.
Qed.



(** ** Chances are relative *)

Lemma bisect_loop_ext (a a' : list Q) (x x' : Q) :
  (forall i, Qltb x (nth i a 0%Q) = Qltb x' (nth i a' 0%Q)) ->
  forall fuel lo hi,
    Random.bisect_loop fuel a x lo hi = Random.bisect_loop fuel a' x' lo hi.
Proof.
  intros H. induction fuel as [|fuel IH]; intros lo hi;
    cbn [Random.bisect_loop]; [reflexivity|].
  rewrite H. destruct (lo <? hi)%nat; [|reflexivity].
  destruct (Qltb x' (nth ((lo + hi) / 2) a' 0%Q)); apply IH.
Qed.

Lemma accumulate_from_scale (k : Q) (ws : list Q) :
  forall acc acc' i,
    (acc' == k * acc)%Q ->
    (nth i (Random.accumulate_from acc' (map (Qmult k) ws)) 0
     == k * nth i (Random.accumulate_from acc ws) 0)%Q.
Proof.
  induction ws as [|w ws IH]; intros acc acc' i Hacc.
  - destruct i; simpl; rewrite Qmult_0_r; reflexivity.
  - assert (Hstep : (acc' + k * w == k * (acc + w))%Q).
    { rewrite Hacc, Qmult_plus_distr_r. reflexivity. }
    destruct i as [|i]; cbn [map Random.accumulate_from nth].
    + exact Hstep.
    + apply IH. exact Hstep.
Qed.

Lemma accumulate_scale (k : Q) (ws : list Q) (i : nat) :
  (nth i (Random.accumulate (map (Qmult k) ws)) 0
   == k * nth i (Random.accumulate ws) 0)%Q.
Proof.
  destruct ws as [|w ws].
  - destruct i; simpl; rewrite Qmult_0_r; reflexivity.
  - destruct i as [|i]; cbn [map Random.accumulate nth]; [reflexivity|].
    apply accumulate_from_scale. reflexivity.
Qed.

Lemma Qltb_scale (k x y x' y' : Q) :
  (0 < k)%Q -> (x' == k * x)%Q -> (y' == k * y)%Q -> Qltb x' y' = Qltb x y.
Proof.
  intros Hk Hx Hy. rewrite (Qltb_compat x' (k * x) y' (k * y) Hx Hy).
  destruct (Qltb x y) eqn:E.
  - apply Qltb_lt. apply Qltb_lt in E. apply Qmult_lt_l; assumption.
  - apply Qltb_ge. apply Qltb_ge in E. apply Qmult_le_l; assumption.
Qed.

Lemma choices_scale {A B : Type} (f : A -> B) (k u : Q)
    (population : list A) (weights : list Q) :
  (0 < k)%Q ->
  Random.choices u (map f population) (map (Qmult k) weights)
  = match Random.choices u population weights with
    | Return x => Return (f x)
    | Raise e => Raise e
    end.
Proof.
  intros Hk. unfold Random.choices.
  rewrite !accumulate_length, !length_map.
  destruct (length weights =? length population)%nat; cbn [negb]; [|reflexivity].
  cbv zeta.
  set (cum := Random.accumulate weights).
  set (cum' := Random.accumulate (map (Qmult k) weights)).
  assert (Hlen : length cum' = length cum)
    by (unfold cum, cum'; rewrite !accumulate_length, length_map; reflexivity).
  assert (Hnth : forall i, (nth i cum' 0 == k * nth i cum 0)%Q)
    by (intros i; apply accumulate_scale).
  assert (Htotal : (last cum' 0 + 0 == k * (last cum 0 + 0))%Q).
  { rewrite !Qplus_0_r, !last_is_nth, Hlen. apply Hnth. }
  assert (Hleb : Qleb (last cum' 0%Q + 0)%Q 0%Q = Qleb (last cum 0%Q + 0)%Q 0%Q).
  { unfold Qleb. f_equal.
    apply (Qltb_scale k 0%Q (last cum 0%Q + 0)%Q 0%Q (last cum' 0%Q + 0)%Q Hk);
      [rewrite Qmult_0_r; reflexivity|exact Htotal]. }
  rewrite Hleb. destruct (Qleb (last cum 0%Q + 0)%Q 0%Q); [reflexivity|].
  assert (Hidx : Random.bisect cum' (u * (last cum' 0%Q + 0))%Q 0 (length population - 1)
                 = Random.bisect cum (u * (last cum 0%Q + 0))%Q 0 (length population - 1)).
  { unfold Random.bisect. apply bisect_loop_ext. intros i.
    apply (Qltb_scale k _ _ _ _ Hk); [|apply Hnth].
    rewrite Htotal. rewrite !Qmult_assoc, (Qmult_comm u k). reflexivity. }
  rewrite Hidx, nth_error_map.
  destruct (nth_error population _); reflexivity.
Qed.



(** ** The pool of a case *)

Lemma get_case_nfts_in (db : Db) (case_id : Z) (item : CaseItem) :
  In item (get_case_nfts db case_id) <->
  exists case_nft nft,
    In case_nft (case_nfts db) /\ In nft (nfts db) /\
    CaseNFT.nft_id case_nft = NFT.id nft /\ CaseNFT.case_id case_nft = case_id /\
    CaseNFT.is_active case_nft = true /\ NFT.is_active nft = true /\
    item = mkCaseItem (NFT.id nft) (NFT.name nft) (NFT.description nft)
                      (NFT.rarity nft) (NFT.price nft) (NFT.image_url nft)
                      (CaseNFT.chance case_nft).
Proof.
  unfold get_case_nfts. rewrite in_flat_map. split.
  - intros (cn & Hcn & H). apply in_flat_map in H. destruct H as (n & Hn & H).
    destruct ((CaseNFT.nft_id cn =? NFT.id n) && (CaseNFT.case_id cn =? case_id)
              && CaseNFT.is_active cn && NFT.is_active n) eqn:E; [|destruct H].
    destruct H as [<-|[]].
    apply andb_prop in E. destruct E as [E En].
    apply andb_prop in E. destruct E as [E Ec].
    apply andb_prop in E. destruct E as [E1 E2].
    apply Z.eqb_eq in E1, E2. exists cn, n. repeat split; assumption.
  - intros (cn & n & Hcn & Hn & E1 & E2 & Ec & En & ->).
    exists cn. split; [exact Hcn|]. apply in_flat_map. exists n. split; [exact Hn|].
    apply Z.eqb_eq in E1, E2. rewrite E1, E2, Ec, En. left. reflexivity.
Qed.

(** X7: what [open_case] draws from [get_case_nfts] is an active NFT
    attached to that case by an active row, with the chance of that row;
    and the draw returns [None] exactly when the case has no such
    row. *)
Theorem open_case_draws_active_content :
  forall db case_id u,
    (forall item,
        open_case u (get_case_nfts db case_id) = Return (Some item) ->
        exists case_nft nft,
          In case_nft (case_nfts db) /\ In nft (nfts db) /\
          CaseNFT.nft_id case_nft = NFT.id nft /\
          CaseNFT.case_id case_nft = case_id /\
          CaseNFT.is_active case_nft = true /\ NFT.is_active nft = true /\
          item_id item = NFT.id nft /\ item_price item = NFT.price nft /\
          chance item = CaseNFT.chance case_nft) /\
    (open_case u (get_case_nfts db case_id) = Return None <->
     forall case_nft nft,
       In case_nft (case_nfts db) -> In nft (nfts db) ->
       CaseNFT.nft_id case_nft = NFT.id nft ->
       CaseNFT.case_id case_nft = case_id ->
       CaseNFT.is_active case_nft = true -> NFT.is_active nft = false).
Proof.
  intros db case_id u. split.
  - intros item Hopen.
    assert (Hne : get_case_nfts db case_id <> []).
    { intros E. rewrite E in Hopen. discriminate Hopen. }
    destruct (open_case_outcome u _ Hne) as [Hraise Hdraw].
    destruct (Qlt_le_dec 0 (total_weight (get_case_nfts db case_id))) as [Ht|Ht];
      [|rewrite (Hraise Ht) in Hopen; discriminate Hopen].
    destruct (Hdraw Ht) as (x & Hx & Hin). rewrite Hx in Hopen.
    injection Hopen as ->.
    apply get_case_nfts_in in Hin.
    destruct Hin as (cn & n & Hcn & Hn & E1 & E2 & Ec & En & ->).
    exists cn, n. repeat split; assumption.
  - split.
    + intros Hopen cn n Hcn Hn E1 E2 Ec.
      destruct (NFT.is_active n) eqn:En; [|reflexivity]. exfalso.
      assert (Hin : In (mkCaseItem (NFT.id n) (NFT.name n) (NFT.description n)
                          (NFT.rarity n) (NFT.price n) (NFT.image_url n)
                          (CaseNFT.chance cn)) (get_case_nfts db case_id)).
      { apply get_case_nfts_in. exists cn, n. repeat split; assumption. }
      assert (Hne : get_case_nfts db case_id <> []).
      { intros E. rewrite E in Hin. destruct Hin. }
      destruct (open_case_outcome u _ Hne) as [Hraise Hdraw].
      destruct (Qlt_le_dec 0 (total_weight (get_case_nfts db case_id))) as [Ht|Ht].
      * destruct (Hdraw Ht) as (x & Hx & _). rewrite Hx in Hopen. discriminate Hopen.
      * rewrite (Hraise Ht) in Hopen. discriminate Hopen.
    + intros Hnone.
      destruct (get_case_nfts db case_id) as [|item items] eqn:E; [reflexivity|].
      exfalso.
      assert (Hin : In item (get_case_nfts db case_id)) by (rewrite E; left; reflexivity).
      apply get_case_nfts_in in Hin.
      destruct Hin as (cn & n & Hcn & Hn & E1 & E2 & Ec & En & _).
      rewrite (Hnone cn n Hcn Hn E1 E2 Ec) in En. discriminate En.
Qed.

Lemma open_case_draws_active_content_witness :
  exists case_nft nft,
    In case_nft (case_nfts demo_db) /\ In nft (nfts demo_db) /\
    CaseNFT.nft_id case_nft = NFT.id nft /\
    CaseNFT.case_id case_nft = 5 /\
    CaseNFT.is_active case_nft = true /\ NFT.is_active nft = true /\
    item_id (mkCaseItem 11 "Bear" None "rare" 90 None (1 # 2)) = NFT.id nft /\
    item_price (mkCaseItem 11 "Bear" None "rare" 90 None (1 # 2)) = NFT.price nft /\
    chance (mkCaseItem 11 "Bear" None "rare" 90 None (1 # 2)) = CaseNFT.chance case_nft.
Proof.
  apply (proj1 (open_case_draws_active_content demo_db 5 (9 # 10))
               (mkCaseItem 11 "Bear" None "rare" 90 None (1 # 2))).
  vm_compute. reflexivity.
Defined.

(** ** Creating a user once *)

Lemma first_app_last {A : Type} (f : A -> bool) (rows : list A) (r : A) :
  first f rows = None -> first f (rows ++ [r]) = if f r then Some r else None.
Proof.
  unfold first. induction rows as [|a rows IH]; simpl; [reflexivity|].
  destruct (f a); [discriminate|exact IH].
Qed.

Lemma fresh_id_above (ids : list Z) (i : Z) : In i ids -> i < fresh_id ids.
Proof.
  unfold fresh_id. induction ids as [|a ids IH]; cbn [fold_right In]; [intros []|].
  intros [->|H]; [lia|]. specialize (IH H). lia.
Qed.

Lemma fresh_id_new (ids : list Z) : ~ In (fresh_id ids) ids.
Proof. intros H. apply fresh_id_above in H. lia. Qed.

(** X8: [get_or_create_user] is idempotent: a second call with the same
    telegram id, whatever names it carries, returns the user of the
    first call and leaves the store of the first call as it is.  When
    no user had the telegram id, the first call appends one row with
    the names given, 1000 stars, zeroed counters and an id no other row
    has. *)
Theorem get_or_create_user_idempotent :
  forall db telegram_id username first_name last_name
         username' first_name' last_name',
    let created := get_or_create_user db telegram_id username first_name last_name in
    get_or_create_user (fst created) telegram_id username' first_name' last_name'
    = created /\
    User.telegram_id (snd created) = telegram_id /\
    In (snd created) (users (fst created)) /\
    ((forall u, In u (users db) -> User.telegram_id u <> telegram_id) ->
     snd created = User.mk (fresh_id (map User.id (users db))) telegram_id
                           username first_name last_name 1000 0 0 /\
     users (fst created) = (users db ++ [snd created])%list /\
     ~ In (User.id (snd created)) (map User.id (users db))).
Proof.
  intros db tg un fn ln un' fn' ln'. cbv zeta.
  assert (Hc : get_or_create_user db tg un fn ln
               = match first (fun u => User.telegram_id u =? tg) (users db) with
                 | Some user => (db, user)
                 | None =>
                     (set_users db
                        (users db ++
                         [User.mk (fresh_id (map User.id (users db))) tg
                                  un fn ln 1000 0 0])%list,
                      User.mk (fresh_id (map User.id (users db))) tg
                              un fn ln 1000 0 0)
                 end) by reflexivity.
  destruct (first (fun u => User.telegram_id u =? tg) (users db)) as [user|] eqn:E;
    rewrite Hc; clear Hc.
  - cbn [fst snd]. apply first_some in E as E'. destruct E' as [Hin Htg].
    apply Z.eqb_eq in Htg. split; [|split; [exact Htg|split; [exact Hin|]]].
    + unfold get_or_create_user. rewrite E. reflexivity.
    + intros Hnone. exfalso. apply (Hnone user Hin Htg).
  - cbn [fst snd]. split; [|split; [reflexivity|split]].
    + unfold get_or_create_user. cbn [users set_users].
      rewrite (first_app_last _ _ _ E). cbn [User.telegram_id].
      rewrite Z.eqb_refl. reflexivity.
    + cbn [users set_users]. apply in_or_app. right. left. reflexivity.
    + intros _. split; [reflexivity|]. split; [reflexivity|].
      cbn [User.id]. apply fresh_id_new.
Qed.

(** ** Keys stay unique *)

Lemma set_balance_keys (id b : Z) (rows : list User.t) :
  map User.id (set_balance id b rows) = map User.id rows /\
  map User.telegram_id (set_balance id b rows) = map User.telegram_id rows.
Proof.
  unfold set_balance. rewrite !map_map. split; apply map_ext;
    intros r; destruct (User.id r =? id); reflexivity.
Qed.

Lemma mark_sold_keys (id s : Z) (rows : list UserNFT.t) :
  map UserNFT.id (mark_sold id s rows) = map UserNFT.id rows.
Proof.
  unfold mark_sold. rewrite map_map. apply map_ext.
  intros r; destruct (UserNFT.id r =? id); reflexivity.
Qed.

Lemma NoDup_app_last {A : Type} (l : list A) (x : A) :
  NoDup l -> ~ In x l -> NoDup (l ++ [x]).
Proof.
  intros Hl Hx. apply NoDup_rev in Hl. rewrite <- (rev_involutive (l ++ [x])).
  apply NoDup_rev. rewrite rev_app_distr. cbn [rev app].
  constructor; [|exact Hl]. rewrite <- in_rev. exact Hx.
Qed.

(** X9: the service functions keep primary keys and telegram ids
    pairwise different: [get_or_create_user] never stores a second user
    with a telegram id already present, new rows get unused ids, and a
    sale changes no key. *)
Theorem service_keeps_keys_unique :
  forall db,
    keys_unique db ->
    (forall telegram_id username first_name last_name,
        keys_unique (fst (get_or_create_user db telegram_id username
                                             first_name last_name))) /\
    (forall user_id nft_id case_id,
        keys_unique (fst (add_nft_to_inventory db user_id nft_id case_id))) /\
    (forall user_nft_id user_id db' r,
        sell_nft db user_nft_id user_id = Return (db', r) -> keys_unique db').
Proof.
  intros db (Hid & Htg & Hun). split; [|split].
  - intros tg un fn ln. unfold get_or_create_user.
    destruct (first (fun u => User.telegram_id u =? tg) (users db)) as [user|] eqn:E.
    + cbn [fst]. repeat split; assumption.
    + cbn [fst]. unfold keys_unique. cbn [users user_nfts set_users].
      rewrite !map_app. cbn [map User.id User.telegram_id].
      split; [|split; [|exact Hun]].
      * apply NoDup_app_last; [exact Hid|apply fresh_id_new].
      * apply NoDup_app_last; [exact Htg|].
        intros Hin. apply in_map_iff in Hin. destruct Hin as (u & Eu & Hu).
        unfold first in E. pose proof (find_none _ _ E u Hu) as Hn.
        cbn beta in Hn. apply Z.eqb_neq in Hn. contradiction.
  - intros uid nid cid. unfold keys_unique. cbn [fst add_nft_to_inventory].
    cbn [users user_nfts set_user_nfts].
    split; [exact Hid|]. split; [exact Htg|].
    rewrite map_app. cbn [map UserNFT.id].
    apply NoDup_app_last; [exact Hun|apply fresh_id_new].
  - intros x uid db' r E. apply sell_nft_inv in E.
    destruct E as [[_ ->]|(un & n & usr & s & _ & _ & _ & _ & _ & _ & _ & _ & _ & _ & ->)].
    + repeat split; assumption.
    + unfold keys_unique, sold_db. cbn [users user_nfts set_users set_user_nfts].
      destruct (set_balance_keys uid (User.stars_balance usr + s) (users db)) as [-> ->].
      rewrite mark_sold_keys. repeat split; assumption.
Qed.

Lemma service_keeps_keys_unique_witness :
  keys_unique demo_db /\
  keys_unique (fst (get_or_create_user demo_db 888 None (Some "Ann") None)).
Proof.
  assert (H : keys_unique demo_db).
  { unfold keys_unique. cbn. repeat split; repeat constructor; cbn;
      intuition discriminate. }
  split; [exact H|].
  apply (proj1 (service_keeps_keys_unique demo_db H) 888 None (Some "Ann") None).
Defined.

Lemma get_or_create_user_idempotent_witness :
  users (fst (get_or_create_user demo_db 888 None (Some "Ann") None))
  = (users demo_db ++ [snd (get_or_create_user demo_db 888 None (Some "Ann") None)])%list.
Proof.
  pose proof (get_or_create_user_idempotent demo_db 888 None (Some "Ann") None
                                            None None None) as H.
  cbv zeta in H. destruct H as (_ & _ & _ & H).
  apply H. intros u [<-|[]]. discriminate.
Defined.

(** ** What a sale touches *)

Lemma set_balance_total (id b : Z) (rows : list User.t) (user : User.t) :
  NoDup (map User.id rows) -> In user rows -> User.id user = id ->
  fold_right Z.add 0 (map User.stars_balance (set_balance id b rows))
  = fold_right Z.add 0 (map User.stars_balance rows) - User.stars_balance user + b.
Proof.
  intros Hnd Hin Hid. induction rows as [|r rows IH]; [destruct Hin|].
  cbn [set_balance map fold_right]. fold (set_balance id b rows).
  inversion Hnd as [|k ks Hk Hnd']; subst k ks.
  destruct Hin as [->|Hin].
  - rewrite Hid, Z.eqb_refl. cbn [User.stars_balance].
    assert (E : set_balance id b rows = rows).
    { unfold set_balance. rewrite <- (map_id rows) at 2. apply map_ext_in.
      intros r Hr. destruct (User.id r =? id) eqn:Er; [|reflexivity].
      exfalso. apply Z.eqb_eq in Er. apply Hk. rewrite Hid, <- Er.
      apply in_map. exact Hr. }
    rewrite E. lia.
  - destruct (User.id r =? id) eqn:Er.
    + exfalso. apply Z.eqb_eq in Er. apply Hk. rewrite Er, <- Hid.
      apply in_map. exact Hin.
    + rewrite (IH Hnd' Hin). lia.
Qed.

(** X10: a successful sale adds exactly the returned amount to the stars
    held by all users together (user ids being pairwise different),
    changes no user other than the seller, no inventory row other than
    those with the sold id, and nothing in the catalog or the opening
    history. *)
Theorem sell_nft_accounting :
  forall db db' user_nft_id user_id s,
    NoDup (map User.id (users db)) ->
    sell_nft db user_nft_id user_id = Return (db', Some s) ->
    total_balance db' = total_balance db + s /\
    (forall i u, nth_error (users db) i = Some u -> User.id u <> user_id ->
                 nth_error (users db') i = Some u) /\
    (forall i r, nth_error (user_nfts db) i = Some r -> UserNFT.id r <> user_nft_id ->
                 nth_error (user_nfts db') i = Some r) /\
    nfts db' = nfts db /\ cases db' = cases db /\
    case_nfts db' = case_nfts db /\ opening_history db' = opening_history db.
Proof.
  intros db db' x uid s Hnd E. apply sell_nft_inv in E.
  destruct E as [[E _]|(un & n & usr & s' & Es & _ & _ & _ & _ & _ & _ & _ & Hu & Hid & ->)];
    [discriminate E|].
  injection Es as <-.
  unfold total_balance, sold_db. cbn [users user_nfts set_users set_user_nfts
                                      nfts cases case_nfts opening_history].
  split; [|split; [|split]].
  - rewrite (set_balance_total uid _ (users db) usr Hnd Hu Hid). lia.
  - intros i u Hi Hne. unfold set_balance. rewrite nth_error_map, Hi. cbn [option_map].
    apply Z.eqb_neq in Hne. rewrite Hne. reflexivity.
  - intros i r Hi Hne. unfold mark_sold. rewrite nth_error_map, Hi. cbn [option_map].
    apply Z.eqb_neq in Hne. rewrite Hne. reflexivity.
  - repeat split.
Qed.

Lemma sell_nft_accounting_witness :
  total_balance (sold_db demo_db 2 1 162 62) = total_balance demo_db + 62.
Proof.
  apply (sell_nft_accounting demo_db (sold_db demo_db 2 1 162 62) 2 1 62).
  - repeat constructor. intros [].
  - vm_compute. reflexivity.
Defined.

(** ** The inventory after a sale *)

Lemma flat_map_filter_all {A B : Type} (f : A -> list B) (g : B -> bool) (l : list A) :
  (forall a b, In a l -> In b (f a) -> g b = true) ->
  filter g (flat_map f l) = flat_map f l.
Proof.
  intros H. induction l as [|a l IH]; [reflexivity|].
  cbn [flat_map]. rewrite filter_app, IH.
  - f_equal. apply forallb_filter_id. apply forallb_forall.
    intros b Hb. apply (H a b); [left; reflexivity|exact Hb].
  - intros a' b Ha Hb. apply (H a' b); [right; exact Ha|exact Hb].
Qed.

Lemma flat_map_nil {A B : Type} (f : A -> list B) (l : list A) :
  (forall a, In a l -> f a = []) -> flat_map f l = [].
Proof.
  intros H. induction l as [|a l IH]; [reflexivity|].
  cbn [flat_map]. rewrite (H a) by (left; reflexivity).
  apply IH. intros a' Ha. apply H. right. exact Ha.
Qed.

Lemma filter_none {A : Type} (g : A -> bool) (l : list A) :
  (forall a, In a l -> g a = false) -> filter g l = [].
Proof.
  intros H. induction l as [|a l IH]; [reflexivity|].
  cbn [filter]. rewrite (H a) by (left; reflexivity).
  apply IH. intros a' Ha. apply H. right. exact Ha.
Qed.

(** X11: after a successful sale the inventory view of every user is
    the view from before without the entries carrying the sold id: the
    sold entry is gone from [get_user_nfts] and no other entry comes or
    goes. *)
Theorem get_user_nfts_after_sale :
  forall db db' user_nft_id user_id s viewer,
    sell_nft db user_nft_id user_id = Return (db', Some s) ->
    get_user_nfts db' viewer
    = filter (fun p => negb (UserNFT.id (fst p) =? user_nft_id))
             (get_user_nfts db viewer).
Proof.
  intros db db' x uid s viewer E. apply sell_nft_inv in E.
  destruct E as [[E _]|(un & n & usr & s' & Es & _ & _ & _ & _ & _ & _ & _ & _ & _ & ->)];
    [discriminate E|].
  unfold get_user_nfts, sold_db. cbn [user_nfts nfts set_users set_user_nfts].
  unfold mark_sold. generalize (user_nfts db) as rows.
  induction rows as [|r rows IH]; [reflexivity|].
  cbn [map flat_map]. rewrite filter_app, IH. f_equal.
  destruct (UserNFT.id r =? x) eqn:Er.
  - rewrite flat_map_nil.
    + symmetry. apply filter_none. intros [r' n'] Hin.
      apply in_flat_map in Hin. destruct Hin as (n0 & _ & Hin).
      destruct (_ && _ && _) in Hin; [|destruct Hin].
      destruct Hin as [Ep|[]]. injection Ep as <- <-. cbn [fst].
      rewrite Er. reflexivity.
    + intros n0 _. cbn [UserNFT.is_sold negb]. rewrite andb_false_r. reflexivity.
  - symmetry. apply flat_map_filter_all. intros n0 [r' n'] _ Hin.
    destruct (_ && _ && _) in Hin; [|destruct Hin].
    destruct Hin as [Ep|[]]. injection Ep as <- <-. cbn [fst].
    rewrite Er. reflexivity.
Qed.

Lemma get_user_nfts_after_sale_witness :
  get_user_nfts (sold_db demo_db 2 1 162 62) 1
  = filter (fun p => negb (UserNFT.id (fst p) =? 2)) (get_user_nfts demo_db 1).
Proof.
  apply (get_user_nfts_after_sale demo_db (sold_db demo_db 2 1 162 62) 2 1 62 1).
  vm_compute. reflexivity.
Defined.

(** ** From the inventory to the sale *)

(** X12: an entry added with [add_nft_to_inventory] is unsold, gets an
    id no earlier entry has, shows in the owner's [get_user_nfts] with
    its NFT, and can be sold by its owner: when the NFT and the user
    exist, [sell_nft] on the new id returns [int(price * 0.7)] and
    credits it. *)
Theorem add_nft_to_inventory_then_sell :
  forall db user_id nft_id case_id nft user s,
    first (fun n => NFT.id n =? nft_id) (nfts db) = Some nft ->
    first (fun u => User.id u =? user_id) (users db) = Some user ->
    sell_price_of (NFT.price nft) = Return s ->
    let added := add_nft_to_inventory db user_id nft_id case_id in
    ~ In (UserNFT.id (snd added)) (map UserNFT.id (user_nfts db)) /\
    UserNFT.is_sold (snd added) = false /\
    In (snd added, nft) (get_user_nfts (fst added) user_id) /\
    sell_nft (fst added) (UserNFT.id (snd added)) user_id
    = Return (sold_db (fst added) (UserNFT.id (snd added)) user_id
                      (User.stars_balance user + s) s,
              Some s).
Proof.
  intros db uid nid cid nft user s En Eu Es. cbv zeta.
  unfold add_nft_to_inventory. cbn [fst snd UserNFT.id UserNFT.is_sold].
  set (entry := UserNFT.mk (fresh_id (map UserNFT.id (user_nfts db)))
                           uid nid false None (Some cid)).
  split; [apply fresh_id_new|]. split; [reflexivity|]. split.
  - unfold get_user_nfts. cbn [user_nfts nfts set_user_nfts].
    apply in_flat_map. exists entry. split; [apply in_or_app; right; left; reflexivity|].
    apply first_some in En. destruct En as [Hn En]. apply Z.eqb_eq in En.
    apply in_flat_map. exists nft. split; [exact Hn|].
    cbn [entry UserNFT.nft_id UserNFT.user_id UserNFT.is_sold].
    rewrite En, !Z.eqb_refl. left. reflexivity.
  - apply (sell_nft_success _ _ uid s entry nft user).
    + cbn [user_nfts set_user_nfts]. rewrite first_app_last.
      * cbn [entry UserNFT.id UserNFT.user_id UserNFT.is_sold].
        rewrite !Z.eqb_refl. reflexivity.
      * apply first_none. intros r Hr.
        destruct (UserNFT.id r =? fresh_id (map UserNFT.id (user_nfts db))) eqn:Er;
          [|reflexivity].
        exfalso. apply Z.eqb_eq in Er.
        apply (fresh_id_new (map UserNFT.id (user_nfts db))).
        rewrite <- Er. apply in_map. exact Hr.
    + exact En.
    + exact Es.
    + exact Eu.
Qed.

Lemma add_nft_to_inventory_then_sell_witness :
  sell_nft (fst (add_nft_to_inventory demo_db 1 11 5))
           (UserNFT.id (snd (add_nft_to_inventory demo_db 1 11 5))) 1
  = Return (sold_db (fst (add_nft_to_inventory demo_db 1 11 5))
                    (UserNFT.id (snd (add_nft_to_inventory demo_db 1 11 5))) 1
                    (User.stars_balance
                       (User.mk 1 777 (Some "bob") (Some "Bob") None 100 0 0) + 62)
                    62,
            Some 62).
Proof.
  pose proof (add_nft_to_inventory_then_sell demo_db 1 11 5
                (NFT.mk 11 "Bear" None "rare" 90 None true)
                (User.mk 1 777 (Some "bob") (Some "Bob") None 100 0 0) 62
                eq_refl eq_refl) as H.
  cbv zeta in H. apply H. vm_compute. reflexivity.
Defined.

(** ** When a sale returns [None] *)

(** X13: [sell_nft] returns [None] exactly when no inventory row has
    the entry id, the caller as owner and is unsold, and then the store
    is the one given.  When such a row exists but its NFT row does not,
    the call raises instead of returning [None]. *)
Theorem sell_nft_none_iff :
  forall db user_nft_id user_id,
    (forall db',
        sell_nft db user_nft_id user_id = Return (db', None) <->
        db' = db /\
        forall r, In r (user_nfts db) -> UserNFT.id r = user_nft_id ->
                  UserNFT.user_id r = user_id -> UserNFT.is_sold r = true) /\
    (forall r,
        first (fun r => (UserNFT.id r =? user_nft_id)
                        && (UserNFT.user_id r =? user_id)
                        && negb (UserNFT.is_sold r)) (user_nfts db) = Some r ->
        (forall n, In n (nfts db) -> NFT.id n <> UserNFT.nft_id r) ->
        sell_nft db user_nft_id user_id = Raise AttributeError).
Proof.
  intros db x uid. split.
  - intros db'. split.
    + intros E. apply sell_nft_inv in E as E'.
      destruct E' as [[_ ->]|(un & n & usr & s & Es & _)]; [|discriminate Es].
      split; [reflexivity|]. intros r Hr Hid Hu.
      unfold sell_nft in E.
      destruct (first _ (user_nfts db)) as [un|] eqn:E1.
      * exfalso. destruct (first _ (nfts db)); [|discriminate E].
        unfold bind in E. destruct (sell_price_of _); [|discriminate E].
        destruct (first _ (users db)); discriminate E.
      * unfold first in E1. pose proof (find_none _ _ E1 r Hr) as Hn.
        cbn beta in Hn. apply Z.eqb_eq in Hid, Hu. rewrite Hid, Hu in Hn.
        cbn [andb] in Hn. apply negb_false_iff in Hn. exact Hn.
    + intros [-> H]. unfold sell_nft. rewrite first_none; [reflexivity|].
      intros r Hr.
      destruct (UserNFT.id r =? x) eqn:Ei; [|reflexivity].
      destruct (UserNFT.user_id r =? uid) eqn:Eu; [|reflexivity].
      apply Z.eqb_eq in Ei, Eu. rewrite (H r Hr Ei Eu). reflexivity.
  - intros r Er Hn. unfold sell_nft. rewrite Er.
    rewrite first_none; [reflexivity|].
    intros n Hin. apply Z.eqb_neq. apply Hn. exact Hin.
Qed.

Lemma sell_nft_none_iff_witness :
  sell_nft (set_user_nfts demo_db [UserNFT.mk 1 1 99 false None None]) 1 1
  = Raise AttributeError.
Proof.
  apply (proj2 (sell_nft_none_iff
                  (set_user_nfts demo_db [UserNFT.mk 1 1 99 false None None]) 1 1)
               (UserNFT.mk 1 1 99 false None None)).
  - reflexivity.
  - intros n [<-|[<-|[]]]; discriminate.
Defined.

(** ** The sale price in binary64, for every price *)

Lemma digits2_pos_bounds (m : positive) :
  2 ^ (Zpos (digits2_pos m) - 1) <= Zpos m < 2 ^ Zpos (digits2_pos m).
Proof.
  induction m as [m IH|m IH|]; cbn [digits2_pos].
  - rewrite Pos2Z.inj_succ, (Pos2Z.inj_xI m).
    replace (Z.succ (Zpos (digits2_pos m)) - 1)
      with (Z.succ (Zpos (digits2_pos m) - 1)) by lia.
    rewrite !Z.pow_succ_r by lia. lia.
  - rewrite Pos2Z.inj_succ, (Pos2Z.inj_xO m).
    replace (Z.succ (Zpos (digits2_pos m)) - 1)
      with (Z.succ (Zpos (digits2_pos m) - 1)) by lia.
    rewrite !Z.pow_succ_r by lia. lia.
  - split; [discriminate|reflexivity].
Qed.

Lemma digits2_pos_unique (m : positive) (k : Z) :
  2 ^ (k - 1) <= Zpos m < 2 ^ k -> 0 < k -> Zpos (digits2_pos m) = k.
Proof.
  intros [Hlo Hhi] Hk. pose proof (digits2_pos_bounds m) as [Dlo Dhi].
  set (D := Zpos (digits2_pos m)) in *.
  assert (HD : 0 < D) by (unfold D; lia).
  destruct (Z.lt_trichotomy D k) as [H|[H|H]]; [|exact H|].
  - exfalso. assert (2 ^ D <= 2 ^ (k - 1)) by (apply Z.pow_le_mono_r; lia). lia.
  - exfalso. assert (2 ^ k <= 2 ^ (D - 1)) by (apply Z.pow_le_mono_r; lia). lia.
Qed.

Lemma shr_1_m (mrs : shr_record) :
  0 <= shr_m mrs -> shr_m (shr_1 mrs) = shr_m mrs / 2.
Proof.
  destruct mrs as [m r s]. cbn [shr_1 shr_m].
  destruct m as [|[p|p|]|p]; cbn [shr_m]; intros H; try lia.
  - reflexivity.
  - rewrite (Pos2Z.inj_xI p). apply (Z.div_unique _ 2 _ 1); lia.
  - rewrite (Pos2Z.inj_xO p). apply (Z.div_unique _ 2 _ 0); lia.
  - reflexivity.
Qed.

Lemma iter_pos_shr_m (n : positive) :
  forall mrs, 0 <= shr_m mrs ->
    shr_m (iter_pos shr_1 n mrs) = shr_m mrs / 2 ^ Zpos n.
Proof.
  induction n as [n IH|n IH|]; intros mrs H; cbn [iter_pos];
    try (assert (Hpow : 0 < 2 ^ Zpos n) by (apply Z.pow_pos_nonneg; lia)).
  - assert (H1 : 0 <= shr_m (shr_1 mrs)).
    { rewrite shr_1_m by exact H. apply Z.div_pos; lia. }
    assert (H2 : 0 <= shr_m (iter_pos shr_1 n (shr_1 mrs))).
    { rewrite IH by exact H1. apply Z.div_pos; [exact H1|]. apply Z.pow_pos_nonneg; lia. }
    rewrite IH by exact H2. rewrite IH by exact H1. rewrite shr_1_m by exact H.
    rewrite !Z.div_div by lia.
    f_equal. rewrite (Pos2Z.inj_xI n).
    replace (2 * Zpos n + 1) with (1 + Zpos n + Zpos n) by lia.
    rewrite !Z.pow_add_r by lia. change (2 ^ 1) with 2. lia.
  - assert (H2 : 0 <= shr_m (iter_pos shr_1 n mrs)).
    { rewrite IH by exact H. apply Z.div_pos; [exact H|]. apply Z.pow_pos_nonneg; lia. }
    rewrite IH by exact H2. rewrite IH by exact H.
    rewrite Z.div_div by lia.
    f_equal. rewrite (Pos2Z.inj_xO n).
    replace (2 * Zpos n) with (Zpos n + Zpos n) by lia.
    rewrite Z.pow_add_r by lia. lia.
  - rewrite shr_1_m by exact H. reflexivity.
Qed.

Lemma iter_xO_value (m k : positive) :
  Zpos (Pos.iter xO m k) = Zpos m * 2 ^ Zpos k.
Proof.
  apply (Pos.iter_ind _ xO m (fun k r => Zpos r = Zpos m * 2 ^ Zpos k)).
  - rewrite (Pos2Z.inj_xO m). change (2 ^ 1) with 2. lia.
  - intros p r IH. rewrite (Pos2Z.inj_xO r), IH, Pos2Z.inj_succ, Z.pow_succ_r by lia. lia.
Qed.

Lemma fexp_eq (e : Z) : fexp prec emax e = Z.max (e - 53) (-1074).
Proof. reflexivity. Qed.

Lemma binary_round_aux_exact (mz : positive) (ez : Z) :
  Zpos (digits2_pos mz) = 53 -> -1074 <= ez <= 971 ->
  binary_round_aux prec emax false (Zpos mz) ez loc_Exact = S754_finite false mz ez.
Proof.
  intros Hd He. unfold binary_round_aux, shr_fexp. cbn [Zdigits2 shr_record_of_loc].
  rewrite Hd, fexp_eq.
  replace (Z.max (53 + ez - 53) (-1074) - ez) with 0 by lia.
  cbn [shr shr_m loc_of_shr_record round_nearest_even Zdigits2 shr_record_of_loc].
  rewrite Hd, fexp_eq.
  replace (Z.max (53 + ez - 53) (-1074) - ez) with 0 by lia.
  cbn [shr shr_m].
  replace (ez <=? emax - prec) with true by (symmetry; apply Z.leb_le; unfold emax, prec; lia).
  reflexivity.
Qed.

Lemma float_of_int_exact (p : Z) :
  0 < p < 2 ^ 53 ->
  exists mz t,
    float_of_int p = Return (S754_finite false mz (- t)) /\
    Zpos mz = p * 2 ^ t /\ 0 <= t <= 52 /\ 2 ^ 52 <= Zpos mz < 2 ^ 53.
Proof.
  intros [Hp0 Hp]. destruct p as [|m|m]; try lia.
  pose proof (digits2_pos_bounds m) as [Dlo Dhi].
  set (d := Zpos (digits2_pos m)) in *.
  assert (Hd1 : 1 <= d) by (unfold d; lia).
  assert (Hd : d <= 53).
  { destruct (Z_le_gt_dec d 53) as [H|H]; [exact H|exfalso].
    assert (2 ^ 53 <= 2 ^ (d - 1)) by (apply Z.pow_le_mono_r; lia). lia. }
  unfold float_of_int, binary_normalize, binary_round.
  fold d. rewrite fexp_eq.
  replace (Z.max (d + 0 - 53) (-1074)) with (d - 53) by lia.
  unfold shl_align. destruct (d - 53 - 0) as [|q|k] eqn:E; [| lia |].
  - assert (E53 : d = 53) by lia.
    rewrite (binary_round_aux_exact m 0) by (fold d; lia).
    exists m, 0. rewrite E53 in Dlo, Dhi. change (53 - 1) with 52 in Dlo.
    repeat split; try lia.
  - assert (Ek : Zpos k = 53 - d) by lia.
    assert (Hpow : 2 ^ (d - 1) * 2 ^ (53 - d) = 2 ^ 52).
    { rewrite <- Z.pow_add_r by lia. f_equal. lia. }
    assert (Hpow' : 2 ^ d * 2 ^ (53 - d) = 2 ^ 53).
    { rewrite <- Z.pow_add_r by lia. f_equal. lia. }
    assert (H2 : 0 < 2 ^ (53 - d)) by (apply Z.pow_pos_nonneg; lia).
    pose proof (iter_xO_value m k) as Hv. rewrite Ek in Hv.
    assert (Hb : 2 ^ 52 <= Zpos (Pos.iter xO m k) < 2 ^ 53).
    { rewrite Hv. split.
      - rewrite <- Hpow. apply Z.mul_le_mono_nonneg_r; lia.
      - rewrite <- Hpow'. apply Z.mul_lt_mono_pos_r; lia. }
    rewrite (binary_round_aux_exact (Pos.iter xO m k) (d - 53)).
    + exists (Pos.iter xO m k), (53 - d).
      replace (- (53 - d)) with (d - 53) by lia.
      repeat split; try lia.
    + apply digits2_pos_unique; [|lia]. change (53 - 1) with 52. exact Hb.
    + lia.
Qed.

Lemma round_nearest_even_range (x : Z) (l : location) :
  x <= round_nearest_even x l <= x + 1.
Proof.
  destruct l as [|[| |]]; cbn [round_nearest_even]; try lia.
  destruct (Z.even x); lia.
Qed.

Lemma product_truncation (P : positive) (e : Z) :
  2 ^ 104 <= Zpos P < 2 ^ 106 -> -200 <= e -> e + 53 < 0 ->
  exists n M1,
    (n = 52 \/ n = 53) /\
    Zpos P / 2 ^ n <= M1 <= Zpos P / 2 ^ n + 1 /\
    int_of_float (binary_round_aux prec emax false (Zpos P) e loc_Exact)
    = Return (M1 / 2 ^ (- (e + n))).
Proof.
  intros HP He1 He2.
  pose proof (digits2_pos_bounds P) as [Dlo Dhi].
  set (D := Zpos (digits2_pos P)) in *.
  assert (HD : D = 105 \/ D = 106).
  { assert (D1 : 1 <= D) by (unfold D; lia).
    destruct (Z_le_gt_dec D 104) as [H|H].
    - exfalso. assert (2 ^ D <= 2 ^ 104) by (apply Z.pow_le_mono_r; lia). lia.
    - destruct (Z_le_gt_dec D 106) as [H'|H'].
      + lia.
      + exfalso. assert (2 ^ 106 <= 2 ^ (D - 1)) by (apply Z.pow_le_mono_r; lia). lia. }
  unfold binary_round_aux, shr_fexp. cbn [Zdigits2]. fold D. rewrite fexp_eq.
  replace (Z.max (D + e - 53) (-1074) - e) with (D - 53) by lia.
  assert (Hn : exists n : positive, D - 53 = Zpos n /\ (Zpos n = 52 \/ Zpos n = 53)).
  { destruct HD as [-> | ->]; [exists 52%positive|exists 53%positive]; split; auto. }
  destruct Hn as (n & En & Hn). rewrite En. cbn [shr shr_record_of_loc].
  assert (Hpn : 0 < 2 ^ Zpos n) by (apply Z.pow_pos_nonneg; lia).
  assert (Hlo : 2 ^ Zpos n * 2 ^ 52 = 2 ^ (D - 1)).
  { rewrite <- Z.pow_add_r by lia. f_equal. lia. }
  assert (Hhi : 2 ^ Zpos n * 2 ^ 53 = 2 ^ D).
  { rewrite <- Z.pow_add_r by lia. f_equal. lia. }
  assert (HM0 : 2 ^ 52 <= Zpos P / 2 ^ Zpos n < 2 ^ 53).
  { split.
    - apply Z.div_le_lower_bound; [exact Hpn|]. rewrite Hlo. exact Dlo.
    - apply Z.div_lt_upper_bound; [exact Hpn|]. rewrite Hhi. exact Dhi. }
  set (mrs := iter_pos shr_1 n {| shr_m := Zpos P; shr_r := false; shr_s := false |}).
  assert (Hm : shr_m mrs = Zpos P / 2 ^ Zpos n).
  { unfold mrs. rewrite iter_pos_shr_m by (cbn; lia). reflexivity. }
  pose proof (round_nearest_even_range (shr_m mrs) (loc_of_shr_record mrs)) as HM1.
  remember (round_nearest_even (shr_m mrs) (loc_of_shr_record mrs)) as M1 eqn:EM1.
  rewrite Hm in HM1. clear EM1.
  exists (Zpos n), M1. split; [exact Hn|]. split; [exact HM1|].
  destruct M1 as [|q|q]; try lia.
  pose proof (digits2_pos_bounds q) as [Qlo Qhi].
  cbn [Zdigits2]. set (D2 := Zpos (digits2_pos q)) in *.
  assert (HD2 : D2 = 53 \/ D2 = 54).
  { assert (D1 : 1 <= D2) by (unfold D2; lia).
    destruct (Z_le_gt_dec D2 52) as [H|H].
    - exfalso. assert (2 ^ D2 <= 2 ^ 52) by (apply Z.pow_le_mono_r; lia). lia.
    - destruct (Z_le_gt_dec D2 54) as [H'|H'].
      + lia.
      + exfalso. assert (2 ^ 54 <= 2 ^ (D2 - 1)) by (apply Z.pow_le_mono_r; lia). lia. }
  rewrite fexp_eq.
  assert (Hleb : forall x, x <= 0 -> (x <=? emax - prec) = true).
  { intros x Hx. apply Z.leb_le. unfold emax, prec. lia. }
  destruct HD2 as [E2|E2]; rewrite E2.
  - replace (Z.max (53 + (e + Zpos n) - 53) (-1074) - (e + Zpos n)) with 0 by lia.
    cbn [shr shr_m]. rewrite Hleb by lia. cbn [int_of_float].
    rewrite Z.shiftl_div_pow2 by lia. reflexivity.
  - replace (Z.max (54 + (e + Zpos n) - 53) (-1074) - (e + Zpos n)) with 1 by lia.
    cbn [shr iter_pos].
    rewrite shr_1_m by (cbn; lia). cbn [shr_m].
    assert (Hq : 2 ^ 52 <= Zpos q / 2).
    { apply Z.div_le_lower_bound; [lia|]. rewrite E2 in Qlo.
      change (54 - 1) with 53 in Qlo. change (2 ^ 53) with (2 * 2 ^ 52) in Qlo. exact Qlo. }
    destruct (Zpos q / 2) as [|q'|q'] eqn:Eq'; try lia.
    rewrite Hleb by lia. cbn [int_of_float].
    rewrite Z.shiftl_div_pow2 by lia. rewrite <- Eq'.
    rewrite Z.div_div by (try lia; apply Z.pow_pos_nonneg; lia).
    f_equal. f_equal.
    replace (- (e + Zpos n)) with (Z.succ (- (e + Zpos n + 1))) by lia.
    rewrite Z.pow_succ_r by lia. reflexivity.
Qed.

Lemma sell_price_of_positive (p : Z) :
  0 < p < 2 ^ 48 ->
  exists s,
    sell_price_of p = Return s /\
    7 * p / 10 - 1 <= s <= 7 * p / 10 /\
    (p mod 10 <> 0 -> s = 7 * p / 10).
Proof.
  intros [Hp0 Hp].
  assert (Hp53 : 0 < p < 2 ^ 53).
  { split; [exact Hp0|]. eapply Z.lt_trans; [exact Hp|]. reflexivity. }
  destruct (float_of_int_exact p Hp53) as (mz & t & Ef & Emz & Ht & Hmz).
  unfold sell_price_of. rewrite Ef. cbn [bind]. rewrite SELL_PERCENT_bits.
  cbn [SFmul xorb].
  set (P := (mz * 6305039478318694)%positive).
  assert (EP : Zpos P = Zpos mz * 6305039478318694) by reflexivity.
  set (A := 2 ^ t) in *.
  assert (HA0 : 0 < A) by (apply Z.pow_pos_nonneg; lia).
  assert (HA : 32 <= A).
  { destruct (Z_le_gt_dec 5 t) as [H|H].
    - change 32 with (2 ^ 5). apply Z.pow_le_mono_r; lia.
    - exfalso. assert (HA4 : A <= 2 ^ 4) by (apply Z.pow_le_mono_r; lia).
      change (2 ^ 4) with 16 in HA4. change (2 ^ 48) with 281474976710656 in Hp.
      change (2 ^ 52) with 4503599627370496 in Hmz. nia. }
  assert (Ht5 : 5 <= t).
  { destruct (Z_le_gt_dec 5 t) as [H|H]; [exact H|exfalso].
    assert (HA4 : A <= 2 ^ 4) by (apply Z.pow_le_mono_r; lia).
    change (2 ^ 4) with 16 in HA4. lia. }
  change (2 ^ 52) with 4503599627370496 in Hmz.
  change (2 ^ 53) with 9007199254740992 in Hmz.
  assert (HP : 2 ^ 104 <= Zpos P < 2 ^ 106).
  { rewrite EP. change (2 ^ 104) with (4503599627370496 * 4503599627370496).
    change (2 ^ 106) with (9007199254740992 * 9007199254740992). nia. }
  destruct (product_truncation P (- t + -53) HP ltac:(lia) ltac:(lia))
    as (n & M1 & Hn & HM1 & ->).
  exists (M1 / 2 ^ (- (- t + -53 + n))).
  split; [reflexivity|].
  set (F := 7 * p / 10).
  assert (HF : 10 * F <= 7 * p < 10 * F + 10).
  { unfold F. pose proof (Z.mul_div_le (7 * p) 10 ltac:(lia)).
    pose proof (Z.mul_succ_div_gt (7 * p) 10 ltac:(lia)). lia. }
  assert (HFA : 10 * (F * A) <= 7 * Zpos mz < 10 * (F * A) + 10 * A).
  { rewrite Emz. nia. }
  assert (HK : 0 < 2 ^ (- (- t + -53 + n))) by (apply Z.pow_pos_nonneg; lia).
  assert (Hdiv : forall N, 0 < N -> N * (Zpos P / N) <= Zpos P < N * (Zpos P / N) + N).
  { intros N HN. pose proof (Z.mul_div_le (Zpos P) N HN).
    pose proof (Z.mul_succ_div_gt (Zpos P) N HN). lia. }
  assert (Hbounds : F - 1 <= M1 / 2 ^ (- (- t + -53 + n)) <= F /\
                    (10 * F + 1 <= 7 * p -> F <= M1 / 2 ^ (- (- t + -53 + n)))).
  { destruct Hn as [-> | ->].
    - replace (- (- t + -53 + 52)) with (Z.succ t) in * by lia.
      rewrite Z.pow_succ_r in * by lia. fold A in HK |- *.
      change (2 ^ 52) with 4503599627370496 in HM1.
      pose proof (Hdiv 4503599627370496 ltac:(lia)) as HM0.
      set (M0 := Zpos P / 4503599627370496) in *.
      split; [split|].
      + apply Z.div_le_lower_bound; [lia|]. nia.
      + apply Z.lt_succ_r. apply Z.div_lt_upper_bound; [lia|]. nia.
      + intros Hnm. apply Z.div_le_lower_bound; [lia|].
        assert (10 * (F * A) + A <= 7 * Zpos mz) by (rewrite Emz; nia). nia.
    - replace (- (- t + -53 + 53)) with t in * by lia. fold A in HK |- *.
      change (2 ^ 53) with 9007199254740992 in HM1.
      pose proof (Hdiv 9007199254740992 ltac:(lia)) as HM0.
      set (M0 := Zpos P / 9007199254740992) in *.
      split; [split|].
      + apply Z.div_le_lower_bound; [lia|]. nia.
      + apply Z.lt_succ_r. apply Z.div_lt_upper_bound; [lia|]. nia.
      + intros Hnm. apply Z.div_le_lower_bound; [lia|].
        assert (10 * (F * A) + A <= 7 * Zpos mz) by (rewrite Emz; nia). nia. }
  destruct Hbounds as [Hb Hexact]. split; [exact Hb|].
  intros Hmod. apply Z.le_antisymm; [apply Hb|]. apply Hexact.
  pose proof (Z.div_mod p 10 ltac:(lia)) as Hdm.
  pose proof (Z.mod_pos_bound p 10 ltac:(lia)) as Hmb.
  destruct (Z.eq_dec (7 * p) (10 * F)) as [E|E]; [exfalso|lia].
  lia.
Qed.

(** X14: for every price from 0 up to (not including) [2 ^ 48],
    [int(price * SELL_PERCENT)] does not raise and is seventy percent
    of the price rounded down, or one less; it is exactly the rounded
    down value whenever the price is not a multiple of 10, and it never
    exceeds the price. *)
Theorem sell_price_of_bounds :
  forall price,
    0 <= price < 2 ^ 48 ->
    exists s,
      sell_price_of price = Return s /\
      7 * price / 10 - 1 <= s <= 7 * price / 10 /\
      (price mod 10 <> 0 -> s = 7 * price / 10) /\
      0 <= s <= price.
Proof.
  intros price [H0 H].
  destruct (Z.eq_dec price 0) as [->|Hne].
  - exists 0. split; [vm_compute; reflexivity|].
    split; [split; discriminate|]. split; [reflexivity|]. split; discriminate.
  - destruct (sell_price_of_positive price ltac:(lia)) as (s & Es & Hb & Hx).
    exists s. split; [exact Es|]. split; [exact Hb|]. split; [exact Hx|].
    split.
    + apply (sell_price_of_nonneg price s H0 Es).
    + pose proof (Z.mul_div_le (7 * price) 10 ltac:(lia)). lia.
Qed.

Lemma sell_price_of_bounds_witness :
  exists s,
    sell_price_of 90 = Return s /\
    7 * 90 / 10 - 1 <= s <= 7 * 90 / 10 /\
    (90 mod 10 <> 0 -> s = 7 * 90 / 10) /\
    0 <= s <= 90.
Proof.
  apply (sell_price_of_bounds 90). split; [discriminate|reflexivity].
Defined.

(** X15: when the caller owns an unsold entry with the given id, the
    NFT of the first such entry exists with a price from 0 up to
    [2 ^ 48] and the caller's user row exists, [sell_nft] succeeds: it
    returns an amount that is seventy percent of that price rounded
    down, or one less, marks the entry sold at that amount and sets the
    seller's balance to the old balance plus that amount. *)
Theorem sell_nft_succeeds :
  forall db user_nft_id user_id user_nft nft user,
    first (fun r => (UserNFT.id r =? user_nft_id)
                    && (UserNFT.user_id r =? user_id)
                    && negb (UserNFT.is_sold r)) (user_nfts db) = Some user_nft ->
    first (fun n => NFT.id n =? UserNFT.nft_id user_nft) (nfts db) = Some nft ->
    first (fun u => User.id u =? user_id) (users db) = Some user ->
    0 <= NFT.price nft < 2 ^ 48 ->
    exists s,
      sell_nft db user_nft_id user_id
      = Return (sold_db db user_nft_id user_id (User.stars_balance user + s) s,
                Some s) /\
      7 * NFT.price nft / 10 - 1 <= s <= 7 * NFT.price nft / 10 /\
      (forall r, In r (user_nfts (sold_db db user_nft_id user_id
                                          (User.stars_balance user + s) s)) ->
                 UserNFT.id r = user_nft_id ->
                 UserNFT.is_sold r = true /\ UserNFT.sold_price r = Some s) /\
      (forall u, In u (users (sold_db db user_nft_id user_id
                                      (User.stars_balance user + s) s)) ->
                 User.id u = user_id ->
                 User.stars_balance u = User.stars_balance user + s).
Proof.
  intros db x uid un nft user E1 E2 E3 Hprice.
  destruct (Z.eq_dec (NFT.price nft) 0) as [E0|Hne].
  - exists 0. rewrite E0 in *.
    split; [apply (sell_nft_success db x uid 0 un nft user E1 E2); [|exact E3];
            rewrite E0; vm_compute; reflexivity|].
    split; [split; discriminate|]. unfold sold_db.
    cbn [users user_nfts set_users set_user_nfts]. split.
    + intros r Hr Hid. unfold mark_sold in Hr. apply in_map_iff in Hr.
      destruct Hr as (r0 & <- & _). destruct (UserNFT.id r0 =? x) eqn:Er.
      * split; reflexivity.
      * apply Z.eqb_neq in Er. contradiction.
    + intros u Hu Hid. unfold set_balance in Hu. apply in_map_iff in Hu.
      destruct Hu as (u0 & <- & _). destruct (User.id u0 =? uid) eqn:Eu.
      * reflexivity.
      * apply Z.eqb_neq in Eu. contradiction.
  - destruct (sell_price_of_positive (NFT.price nft) ltac:(lia)) as (s & Es & Hb & _).
    exists s.
    split; [apply (sell_nft_success db x uid s un nft user E1 E2 Es E3)|].
    split; [exact Hb|]. unfold sold_db.
    cbn [users user_nfts set_users set_user_nfts]. split.
    + intros r Hr Hid. unfold mark_sold in Hr. apply in_map_iff in Hr.
      destruct Hr as (r0 & <- & _). destruct (UserNFT.id r0 =? x) eqn:Er.
      * split; reflexivity.
      * apply Z.eqb_neq in Er. contradiction.
    + intros u Hu Hid. unfold set_balance in Hu. apply in_map_iff in Hu.
      destruct Hu as (u0 & <- & _). destruct (User.id u0 =? uid) eqn:Eu.
      * reflexivity.
      * apply Z.eqb_neq in Eu. contradiction.
Qed.

Lemma sell_nft_succeeds_witness :
  exists s,
    sell_nft demo_db 1 1
    = Return (sold_db demo_db 1 1
                (User.stars_balance
                   (User.mk 1 777 (Some "bob") (Some "Bob") None 100 0 0) + s) s,
              Some s) /\
    7 * NFT.price (NFT.mk 10 "Rose" None "common" 100 None true) / 10 - 1 <= s
      <= 7 * NFT.price (NFT.mk 10 "Rose" None "common" 100 None true) / 10.
Proof.
  destruct (sell_nft_succeeds demo_db 1 1
              (UserNFT.mk 1 1 10 false None (Some 5))
              (NFT.mk 10 "Rose" None "common" 100 None true)
              (User.mk 1 777 (Some "bob") (Some "Bob") None 100 0 0)
              eq_refl eq_refl eq_refl)
    as (s & E & Hb & _).
  - split; [discriminate|reflexivity].
  - exists s. split; [exact E|exact Hb].
Defined.

(** ** Negative prices *)

Lemma binary_round_aux_opp (m e : Z) (l : location) :
  binary_round_aux prec emax true m e l
  = SFopp (binary_round_aux prec emax false m e l).
Proof.
  unfold binary_round_aux.
  destruct (shr_fexp prec emax m e l) as [mrs' e'].
  destruct (shr_fexp prec emax _ e' loc_Exact) as [mrs'' e''].
  destruct (shr_m mrs''); try reflexivity.
  destruct (Z.leb e'' (emax - prec)); reflexivity.
Qed.

(** X16: the price computation is odd: for a negative price it returns
    the negated amount of the positive price ([int()] truncates toward
    zero), so an NFT with a negative price makes a sale take stars away
    from the seller. *)
Theorem sell_price_of_negative :
  forall price,
    sell_price_of (- price)
    = match sell_price_of price with
      | Return s => Return (- s)
      | Raise e => Raise e
      end.
Proof.
  assert (Hpos : forall m,
             sell_price_of (Zneg m)
             = match sell_price_of (Zpos m) with
               | Return s => Return (- s)
               | Raise e => Raise e
               end).
  { intros m. unfold sell_price_of, float_of_int, binary_normalize, binary_round.
    destruct (shl_align m 0 _) as [mz ez].
    rewrite binary_round_aux_opp.
    pose proof (binary_round_aux_sign false (Zpos mz) ez loc_Exact) as Hs.
    destruct (binary_round_aux prec emax false (Zpos mz) ez loc_Exact)
      as [s|s| |s mf ef]; cbn [SFopp bind]; try reflexivity.
    rewrite SELL_PERCENT_bits. cbn [SFmul]. subst s. cbn [negb xorb].
    rewrite binary_round_aux_opp.
    destruct (binary_round_aux prec emax false _ _ loc_Exact) as [s|s| |s mp ep];
      cbn [SFopp int_of_float]; try reflexivity.
    destruct s; cbn [negb]; f_equal; lia. }
  intros [|m|m].
  - reflexivity.
  - apply (Hpos m).
  - change (- Zneg m) with (Zpos m). rewrite (Hpos m).
    destruct (sell_price_of (Zpos m)) as [s|e]; [|reflexivity].
    rewrite Z.opp_involutive. reflexivity.
Qed.
